(** * The module/iteration store of the experiment-module widget set

    A shallow embedding of the state transitions of
    [src/pages/ExperimentModuleApp/index.tsx], of the title-length
    classifier of [components/LengthSelectionModal.tsx] and of the submit
    handler of [components/AddIterationModal.tsx].

    Every [setModules((prev) => ...)] updater of the page component is a
    function from the previous collection to the next one; the variables the
    updater closes over ([moduleId], [currentModuleId], [newIterationId],
    [prompt], ...) are its leading arguments. *)

From Stdlib Require Import List String Ascii NArith Arith Bool Lia.
From Stdlib Require Import DecimalString DecimalNat.
Import ListNotations.

(** ** JavaScript values used by the handlers *)

Module JS.

(** A string is its sequence of UTF-16 code units; [s.length] is the length
    of that sequence and [===] compares the sequences. *)
Definition str : Type := list N.

(** The code units of an ASCII literal of the source. *)
Definition utf16 (s : string) : str :=
  map N_of_ascii (list_ascii_of_string s).

(** [a === b] on strings. *)
Fixpoint eqb (a b : str) : bool :=
  match a, b with
  | [], [] => true
  | x :: a', y :: b' => N.eqb x y && eqb a' b'
  | _, _ => false
  end.

(** [`${n}`] for a non-negative integer [n]: its decimal digits. *)
Definition ofNumber (n : nat) : str :=
  utf16 (NilEmpty.string_of_uint (Nat.to_uint n)).

(** The code units [String.prototype.trim] strips: WhiteSpace and
    LineTerminator of ECMA-262 (TAB, LF, VT, FF, CR, SP, NBSP, the Unicode
    space separators, LS, PS and ZWNBSP). *)
Definition isWhiteSpace (c : N) : bool :=
  (((9 <=? c) && (c <=? 13)) || (c =? 32) || (c =? 160) || (c =? 5760)
   || ((8192 <=? c) && (c <=? 8202)) || (c =? 8232) || (c =? 8233)
   || (c =? 8239) || (c =? 8287) || (c =? 12288) || (c =? 65279))%N.

Fixpoint trimStart (s : str) : str :=
  match s with
  | c :: s' => if isWhiteSpace c then trimStart s' else s
  | [] => []
  end.

Definition trimEnd (s : str) : str := rev (trimStart (rev s)).

Definition trim (s : str) : str := trimEnd (trimStart s).

(** [v || d] where [d] is a string. *)
Definition or_str (v : option str) (d : str) : str :=
  match v with
  | Some (c :: s) => c :: s
  | _ => d
  end.

(** [s || undefined]. *)
Definition or_undefined (s : str) : option str :=
  match s with
  | _ :: _ => Some s
  | [] => None
  end.

(** [n || 0] where [n] is a number or [undefined]. *)
Definition or_zero (v : option nat) : nat :=
  match v with
  | Some (S n) => S n
  | _ => 0
  end.

(** [s.split(sep)] for a separator of one code unit: the pieces of [s]
    between the occurrences of [sep]; the empty string gives one empty
    piece. *)
Fixpoint split (sep : N) (s : str) : list str :=
  match s with
  | [] => [[]]
  | c :: s' =>
      if N.eqb c sep then [] :: split sep s'
      else match split sep s' with
           | piece :: pieces => (c :: piece) :: pieces
           | [] => [[c]]
           end
  end.

(** A number, as far as it is computed here: [Int n] is the integer [n],
    at most 2^53 and so exact as a double; [NotInt] is any other value,
    [NaN] among them, and every result that is not evaluated here. *)
Inductive number : Type := Int (n : N) | NotInt.

Definition isDigit (c : N) : bool := ((48 <=? c) && (c <=? 57))%N.

Fixpoint digitsValue (acc : N) (s : str) : N :=
  match s with
  | [] => acc
  | c :: s' => digitsValue (acc * 10 + (c - 48)) s'
  end.

(** [Number(v)] for [v] a string or [undefined]: [undefined] gives [NaN],
    the empty string gives 0, a string of decimal digits gives its value
    (exact below 2^53); signs, fractions, exponents, other radixes and
    surrounding white space are not evaluated. *)
Definition Number (v : option str) : number :=
  match v with
  | None => NotInt
  | Some [] => Int 0
  | Some s =>
      if forallb isDigit s && (digitsValue 0 s <? 9007199254740992)%N
      then Int (digitsValue 0 s)
      else NotInt
  end.

(** [x + 1], exact for an integer below 2^53. *)
Definition plus1 (x : number) : number :=
  match x with
  | Int n => if (n <? 9007199254740992)%N then Int (n + 1) else NotInt
  | NotInt => NotInt
  end.

End JS.

(** ** Data model ([IterationItem.tsx], [ExperimentModule.tsx]) *)

Inductive Status : Type := completed | adding | draft.

Module Iteration.
Record t : Type := mk
  { id : JS.str;
    title : JS.str;
    isSelected : bool;
    status : Status }.
End Iteration.

Module ExperimentModuleData.
Record t : Type := mk
  { id : JS.str;
    title : JS.str;
    isLocked : bool;
    isExpanded : bool;
    iterations : list Iteration.t }.
End ExperimentModuleData.

Abbreviation Iter := Iteration.t.
Abbreviation Mod := ExperimentModuleData.t.

Inductive LengthOption : Type := short | medium | very_long | custom.

(** ** [LengthSelectionModal.tsx] *)

Definition getLengthCategory (title : JS.str) : LengthOption :=
  let titleLength := List.length title in
  if titleLength <=? 15 then short
  else if titleLength <? 35 then medium
  else very_long.

(** ** [AddIterationModal.tsx] *)

(** The argument [handleSubmit] passes to [onConfirm]:
    [showPromptInput ? prompt.trim() || undefined : undefined]. *)
Definition handleSubmit (showPromptInput : bool) (prompt : JS.str)
  : option JS.str :=
  if showPromptInput then JS.or_undefined (JS.trim prompt) else None.

(** ** [ExperimentModuleApp/index.tsx]: the updaters of [modules] *)

Module Store.

Import ExperimentModuleData.

(** The initial value of [useState]. *)
Definition initialModules : list Mod :=
  [ {| id := JS.utf16 "em-1";
       title := JS.utf16 "Experiment Module";
       isLocked := false;
       isExpanded := false;
       iterations := [] |} ].

Definition addNewModule (modules : list Mod) : list Mod :=
  let newModuleId := JS.utf16 "em-" ++ JS.ofNumber (List.length modules + 1) in
  let newModule :=
    {| id := newModuleId;
       title := JS.utf16 "Experiment Module";
       isLocked := false;
       isExpanded := false;
       iterations := [] |} in
  modules ++ [newModule].

Definition handleToggleExpand (moduleId : JS.str) (prev : list Mod)
  : list Mod :=
  map (fun module =>
         if JS.eqb module.(id) moduleId
         then {| id := module.(id);
                 title := module.(title);
                 isLocked := module.(isLocked);
                 isExpanded := negb module.(isExpanded);
                 iterations := module.(iterations) |}
         else module) prev.

Definition handleToggleLock (moduleId : JS.str) (prev : list Mod)
  : list Mod :=
  map (fun module =>
         if JS.eqb module.(id) moduleId
         then {| id := module.(id);
                 title := module.(title);
                 isLocked := negb module.(isLocked);
                 isExpanded :=
                   if module.(isLocked) then module.(isExpanded) else false;
                 iterations := module.(iterations) |}
         else module) prev.

Definition handleLockModule (moduleId : JS.str) (prev : list Mod)
  : list Mod :=
  map (fun module =>
         if JS.eqb module.(id) moduleId
         then {| id := module.(id);
                 title := module.(title);
                 isLocked := true;
                 isExpanded := false;
                 iterations := module.(iterations) |}
         else module) prev.

Definition handleResetModule (moduleId : JS.str) (prev : list Mod)
  : list Mod :=
  map (fun module =>
         if JS.eqb module.(id) moduleId
         then {| id := module.(id);
                 title := module.(title);
                 isLocked := module.(isLocked);
                 isExpanded := module.(isExpanded);
                 iterations :=
                   map (fun iteration =>
                          {| Iteration.id := iteration.(Iteration.id);
                             Iteration.title := iteration.(Iteration.title);
                             Iteration.isSelected := false;
                             Iteration.status :=
                               iteration.(Iteration.status) |})
                       module.(iterations) |}
         else module) prev.

Definition handleToggleSelection (moduleId iterationId : JS.str)
  (prev : list Mod) : list Mod :=
  map (fun module =>
         if JS.eqb module.(id) moduleId
         then {| id := module.(id);
                 title := module.(title);
                 isLocked := module.(isLocked);
                 isExpanded := module.(isExpanded);
                 iterations :=
                   map (fun iteration =>
                          if JS.eqb iteration.(Iteration.id) iterationId
                          then {| Iteration.id := iteration.(Iteration.id);
                                  Iteration.title :=
                                    iteration.(Iteration.title);
                                  Iteration.isSelected :=
                                    negb iteration.(Iteration.isSelected);
                                  Iteration.status :=
                                    iteration.(Iteration.status) |}
                          else iteration)
                       module.(iterations) |}
         else module) prev.

(** [(module?.iterations.length || 0) + 1] for the first module whose id is
    [moduleId]. *)
Definition getNextIterationNumber (modules : list Mod) (moduleId : JS.str)
  : nat :=
  let module := find (fun m => JS.eqb m.(id) moduleId) modules in
  JS.or_zero (option_map (fun m => List.length m.(iterations)) module) + 1.

(** [`EM-${nextIterationNumber}`], the first two lines of
    [handleAddIterationComplete]. *)
Definition newIterationId (modules : list Mod) (currentModuleId : JS.str)
  : JS.str :=
  let nextIterationNumber := getNextIterationNumber modules currentModuleId in
  JS.utf16 "EM-" ++ JS.ofNumber nextIterationNumber.

(** The first updater of [handleAddIterationComplete]: the iteration is
    appended with "adding" status. *)
Definition addIterationAdding (currentModuleId newIterationId : JS.str)
  (prev : list Mod) : list Mod :=
  map (fun module =>
         if JS.eqb module.(id) currentModuleId
         then {| id := module.(id);
                 title := module.(title);
                 isLocked := module.(isLocked);
                 isExpanded := module.(isExpanded);
                 iterations :=
                   module.(iterations) ++
                   [ {| Iteration.id := newIterationId;
                        Iteration.title := JS.utf16 "Adding iteration...";
                        Iteration.isSelected := false;
                        Iteration.status := adding |} ] |}
         else module) prev.

(** The updater run by the [setTimeout] callback of
    [handleAddIterationComplete]. *)
Definition addIterationCompleted (currentModuleId newIterationId : JS.str)
  (prompt : option JS.str) (prev : list Mod) : list Mod :=
  map (fun module =>
         if JS.eqb module.(id) currentModuleId
         then {| id := module.(id);
                 title := module.(title);
                 isLocked := module.(isLocked);
                 isExpanded := module.(isExpanded);
                 iterations :=
                   map (fun iteration =>
                          if JS.eqb iteration.(Iteration.id) newIterationId
                          then {| Iteration.id := iteration.(Iteration.id);
                                  Iteration.title :=
                                    JS.or_str prompt
                                      (JS.utf16 "Iteration title");
                                  Iteration.isSelected :=
                                    iteration.(Iteration.isSelected);
                                  Iteration.status := completed |}
                          else iteration)
                       module.(iterations) |}
         else module) prev.

Definition handleRemoveIteration (currentModuleId currentIterationId : JS.str)
  (prev : list Mod) : list Mod :=
  map (fun module =>
         if JS.eqb module.(id) currentModuleId
         then {| id := module.(id);
                 title := module.(title);
                 isLocked := module.(isLocked);
                 isExpanded := module.(isExpanded);
                 iterations :=
                   filter (fun iteration =>
                             negb (JS.eqb iteration.(Iteration.id)
                                          currentIterationId))
                          module.(iterations) |}
         else module) prev.

(** The number the add dialog shows: one more than the number read in
    the id of the last iteration of the first module whose id is
    [moduleId], or 1 when there is no such module or it has no iteration
    (the index [length - 1] is then out of the array). *)
Definition getLastIterationNumber (modules : list Mod) (moduleId : JS.str)
  : JS.number :=
  let module := find (fun m => JS.eqb m.(id) moduleId) modules in
  let lastIteration :=
    match module with
    | Some m =>
        match List.length m.(iterations) with
        | 0 => None
        | S n => nth_error m.(iterations) n
        end
    | None => None
    end in
  match lastIteration with
  | None => JS.Int 1
  | Some lastIteration =>
      let lastIterationNumber :=
        JS.Number (nth_error (JS.split 45 lastIteration.(Iteration.id)) 1) in
      JS.plus1 lastIterationNumber
  end.

End Store.

(** ** The store operations as a datatype

    One constructor per operation of the store; [apply] runs the updater the
    page component runs for it, and [run] a history of operations. *)

Module Op.

Inductive t : Type :=
| createModule
| toggleExpand (moduleId : JS.str)
| toggleLock (moduleId : JS.str)
| lockModule (moduleId : JS.str)
| resetModule (moduleId : JS.str)
| toggleSelection (moduleId iterationId : JS.str)
| beginAddIteration (moduleId : JS.str)
| completeAddIteration (moduleId iterationId : JS.str) (title : option JS.str)
| removeIteration (moduleId iterationId : JS.str).

Definition apply (o : t) (modules : list Mod) : list Mod :=
  match o with
  | createModule => Store.addNewModule modules
  | toggleExpand m => Store.handleToggleExpand m modules
  | toggleLock m => Store.handleToggleLock m modules
  | lockModule m => Store.handleLockModule m modules
  | resetModule m => Store.handleResetModule m modules
  | toggleSelection m i => Store.handleToggleSelection m i modules
  | beginAddIteration m =>
      Store.addIterationAdding m (Store.newIterationId modules m) modules
  | completeAddIteration m i p => Store.addIterationCompleted m i p modules
  | removeIteration m i => Store.handleRemoveIteration m i modules
  end.

Definition run (history : list t) (modules : list Mod) : list Mod :=
  fold_left (fun ms o => apply o ms) history modules.

Definition isRemoval (o : t) : bool :=
  match o with
  | removeIteration _ _ => true
  | _ => false
  end.

(** The module id an operation is invoked with, if it takes one. *)
Definition moduleIdOf (o : t) : option JS.str :=
  match o with
  | createModule => None
  | toggleExpand m | toggleLock m | lockModule m | resetModule m
  | toggleSelection m _ | beginAddIteration m
  | completeAddIteration m _ _ | removeIteration m _ => Some m
  end.

(** The iteration id an operation is invoked with, if it takes one. *)
Definition iterationIdOf (o : t) : option JS.str :=
  match o with
  | toggleSelection _ i | completeAddIteration _ i _
  | removeIteration _ i => Some i
  | _ => None
  end.

End Op.

(** ** The page component: its state and event handlers *)

Module App.

(** The closure handed to [setTimeout] by [handleAddIterationComplete]. *)
Record Timeout : Type := mkTimeout
  { t_moduleId : JS.str;
    t_iterationId : JS.str;
    t_prompt : option JS.str }.

(** The [useState] cells of [ExperimentModuleApp], and the callbacks that
    are scheduled and have not run yet (all with the same delay, so they run
    in the order they were scheduled). *)
Record State : Type := mkState
  { modules : list Mod;
    showAddModal : bool;
    showLengthModal : bool;
    currentModuleId : JS.str;
    currentIterationId : JS.str;
    selectedLength : LengthOption;
    isProcessing : bool;
    scheduled : list Timeout }.

Definition initial : State :=
  {| modules := Store.initialModules;
     showAddModal := false;
     showLengthModal := false;
     currentModuleId := [];
     currentIterationId := [];
     selectedLength := short;
     isProcessing := false;
     scheduled := [] |}.

Definition setModules (f : list Mod -> list Mod) (st : State) : State :=
  {| modules := f st.(modules);
     showAddModal := st.(showAddModal);
     showLengthModal := st.(showLengthModal);
     currentModuleId := st.(currentModuleId);
     currentIterationId := st.(currentIterationId);
     selectedLength := st.(selectedLength);
     isProcessing := st.(isProcessing);
     scheduled := st.(scheduled) |}.

Definition setShowAddModal (b : bool) (st : State) : State :=
  {| modules := st.(modules);
     showAddModal := b;
     showLengthModal := st.(showLengthModal);
     currentModuleId := st.(currentModuleId);
     currentIterationId := st.(currentIterationId);
     selectedLength := st.(selectedLength);
     isProcessing := st.(isProcessing);
     scheduled := st.(scheduled) |}.

Definition setShowLengthModal (b : bool) (st : State) : State :=
  {| modules := st.(modules);
     showAddModal := st.(showAddModal);
     showLengthModal := b;
     currentModuleId := st.(currentModuleId);
     currentIterationId := st.(currentIterationId);
     selectedLength := st.(selectedLength);
     isProcessing := st.(isProcessing);
     scheduled := st.(scheduled) |}.

Definition setCurrentModuleId (m : JS.str) (st : State) : State :=
  {| modules := st.(modules);
     showAddModal := st.(showAddModal);
     showLengthModal := st.(showLengthModal);
     currentModuleId := m;
     currentIterationId := st.(currentIterationId);
     selectedLength := st.(selectedLength);
     isProcessing := st.(isProcessing);
     scheduled := st.(scheduled) |}.

Definition setCurrentIterationId (i : JS.str) (st : State) : State :=
  {| modules := st.(modules);
     showAddModal := st.(showAddModal);
     showLengthModal := st.(showLengthModal);
     currentModuleId := st.(currentModuleId);
     currentIterationId := i;
     selectedLength := st.(selectedLength);
     isProcessing := st.(isProcessing);
     scheduled := st.(scheduled) |}.

Definition setIsProcessing (b : bool) (st : State) : State :=
  {| modules := st.(modules);
     showAddModal := st.(showAddModal);
     showLengthModal := st.(showLengthModal);
     currentModuleId := st.(currentModuleId);
     currentIterationId := st.(currentIterationId);
     selectedLength := st.(selectedLength);
     isProcessing := b;
     scheduled := st.(scheduled) |}.

Definition setScheduled (q : list Timeout) (st : State) : State :=
  {| modules := st.(modules);
     showAddModal := st.(showAddModal);
     showLengthModal := st.(showLengthModal);
     currentModuleId := st.(currentModuleId);
     currentIterationId := st.(currentIterationId);
     selectedLength := st.(selectedLength);
     isProcessing := st.(isProcessing);
     scheduled := q |}.

Definition handleAddIteration (moduleId : JS.str) (st : State) : State :=
  setShowAddModal true (setCurrentModuleId moduleId st).

(** The synchronous part of [handleAddIterationComplete]: the id is computed
    from the [modules] of the current render, the iteration is appended, the
    dialog is closed and the completion is scheduled. *)
Definition handleAddIterationComplete (prompt : option JS.str) (st : State)
  : State :=
  let newIterationId :=
    Store.newIterationId st.(modules) st.(currentModuleId) in
  let callback :=
    {| t_moduleId := st.(currentModuleId);
       t_iterationId := newIterationId;
       t_prompt := prompt |} in
  setScheduled (st.(scheduled) ++ [callback])
    (setIsProcessing true
       (setShowAddModal false
          (setModules
             (Store.addIterationAdding st.(currentModuleId) newIterationId)
             st))).

(** The oldest scheduled callback runs. *)
Definition timeout (st : State) : State :=
  match st.(scheduled) with
  | [] => st
  | cb :: rest =>
      setIsProcessing false
        (setModules
           (Store.addIterationCompleted cb.(t_moduleId) cb.(t_iterationId)
              cb.(t_prompt))
           (setScheduled rest st))
  end.

(** [forEach] keeps the id of the last module that holds the iteration. *)
Definition handleIterationClick (iterationId : JS.str) (st : State) : State :=
  let foundModuleId :=
    fold_left
      (fun found module =>
         if existsb (fun iter => JS.eqb iter.(Iteration.id) iterationId)
                    module.(ExperimentModuleData.iterations)
         then module.(ExperimentModuleData.id)
         else found)
      st.(modules) [] in
  setShowLengthModal true
    (setCurrentIterationId iterationId (setCurrentModuleId foundModuleId st)).

Definition handleLengthConfirm (l : LengthOption) (st : State) : State :=
  setShowLengthModal false st.

Definition handleRemoveIteration (st : State) : State :=
  setShowLengthModal false
    (setModules
       (Store.handleRemoveIteration st.(currentModuleId)
          st.(currentIterationId))
       st).

Inductive Event : Type :=
| AddNewModule
| ToggleExpand (moduleId : JS.str)
| ToggleLock (moduleId : JS.str)
| LockModule (moduleId : JS.str)
| ResetModule (moduleId : JS.str)
| ToggleSelection (moduleId iterationId : JS.str)
| AddIteration (moduleId : JS.str)
| AddIterationComplete (prompt : option JS.str)
| TimeoutElapsed
| IterationClick (iterationId : JS.str)
| LengthConfirm (l : LengthOption)
| RemoveIteration
| CloseAddModal
| CloseLengthModal.

Definition step (e : Event) (st : State) : State :=
  match e with
  | AddNewModule => setModules Store.addNewModule st
  | ToggleExpand m => setModules (Store.handleToggleExpand m) st
  | ToggleLock m => setModules (Store.handleToggleLock m) st
  | LockModule m => setModules (Store.handleLockModule m) st
  | ResetModule m => setModules (Store.handleResetModule m) st
  | ToggleSelection m i => setModules (Store.handleToggleSelection m i) st
  | AddIteration m => handleAddIteration m st
  | AddIterationComplete p => handleAddIterationComplete p st
  | TimeoutElapsed => timeout st
  | IterationClick i => handleIterationClick i st
  | LengthConfirm l => handleLengthConfirm l st
  | RemoveIteration => handleRemoveIteration st
  | CloseAddModal => setShowAddModal false st
  | CloseLengthModal => setShowLengthModal false st
  end.

Definition steps (es : list Event) (st : State) : State :=
  fold_left (fun s e => step e s) es st.

Definition isRemoval (e : Event) : bool :=
  match e with
  | RemoveIteration => true
  | _ => false
  end.

(** The store operation an event performs on [modules], if any. *)
Definition opOf (e : Event) (st : State) : option Op.t :=
  match e with
  | AddNewModule => Some Op.createModule
  | ToggleExpand m => Some (Op.toggleExpand m)
  | ToggleLock m => Some (Op.toggleLock m)
  | LockModule m => Some (Op.lockModule m)
  | ResetModule m => Some (Op.resetModule m)
  | ToggleSelection m i => Some (Op.toggleSelection m i)
  | AddIterationComplete _ => Some (Op.beginAddIteration st.(currentModuleId))
  | TimeoutElapsed =>
      match st.(scheduled) with
      | [] => None
      | cb :: _ =>
          Some (Op.completeAddIteration cb.(t_moduleId) cb.(t_iterationId)
                  cb.(t_prompt))
      end
  | RemoveIteration =>
      Some (Op.removeIteration st.(currentModuleId) st.(currentIterationId))
  | AddIteration _ | IterationClick _ | LengthConfirm _
  | CloseAddModal | CloseLengthModal => None
  end.

(** [getCurrentIteration]: the first iteration with the current iteration
    id in the first module with the current module id. *)
Definition getCurrentIteration (st : State) : option Iter :=
  match find (fun m => JS.eqb m.(ExperimentModuleData.id) st.(currentModuleId))
          st.(modules) with
  | Some module =>
      find (fun iter => JS.eqb iter.(Iteration.id) st.(currentIterationId))
        module.(ExperimentModuleData.iterations)
  | None => None
  end.

End App.

(** ** Vocabulary of the statements *)

Module M := ExperimentModuleData.
Module I := Iteration.

(** No module of [prev] has the id [moduleId]. *)
Definition moduleAbsent (moduleId : JS.str) (prev : list Mod) : Prop :=
  forall m : Mod, In m prev -> M.id m <> moduleId.

(** No iteration of a module of [prev] named [moduleId] has the id
    [iterationId]. *)
Definition iterationAbsent (moduleId iterationId : JS.str) (prev : list Mod)
  : Prop :=
  forall (m : Mod) (it : Iter),
    In m prev -> M.id m = moduleId -> In it (M.iterations m) ->
    I.id it <> iterationId.

(** The collection after [beginAddIteration] on the initial module: one
    iteration "EM-1" in "adding" status. *)
Definition oneAdding : list Mod :=
  Op.run [Op.beginAddIteration (JS.utf16 "em-1")] Store.initialModules.

(** The statement of C3 for an iteration that is present, at position [j]
    of the module at position [i]. *)
Definition completedWithTitle (next : list Mod) (i j : nat) (title : JS.str)
  : Prop :=
  exists (m' : Mod) (it' : Iter),
    nth_error next i = Some m' /\
    nth_error (M.iterations m') j = Some it' /\
    I.status it' = completed /\ I.title it' = title.

(** Two additions that complete, the removal of the earlier iteration, and
    one more addition. *)
Definition addAddRemoveAdd : list Op.t :=
  [ Op.beginAddIteration (JS.utf16 "em-1");
    Op.completeAddIteration (JS.utf16 "em-1") (JS.utf16 "EM-1")
      (Some (JS.utf16 "First"));
    Op.beginAddIteration (JS.utf16 "em-1");
    Op.completeAddIteration (JS.utf16 "em-1") (JS.utf16 "EM-2")
      (Some (JS.utf16 "Second"));
    Op.removeIteration (JS.utf16 "em-1") (JS.utf16 "EM-1");
    Op.beginAddIteration (JS.utf16 "em-1") ].

Definition afterAddAddRemoveAdd : list Mod :=
  Op.run addAddRemoveAdd Store.initialModules.

(** [after] is [before] without one entry, whose id is [iterationId]. *)
Definition removesExactlyOne (iterationId : JS.str) (before after : list Iter)
  : Prop :=
  exists (l1 : list Iter) (it : Iter) (l2 : list Iter),
    before = l1 ++ it :: l2 /\ after = l1 ++ l2 /\ I.id it = iterationId.

(** The id [addNewModule] gives to the module at position [i]. *)
Definition moduleIdAt (i : nat) : JS.str :=
  JS.utf16 "em-" ++ JS.ofNumber (i + 1).

(** The id an addition gives to an iteration appended at position [j]. *)
Definition iterationIdAt (j : nat) : JS.str :=
  JS.utf16 "EM-" ++ JS.ofNumber (j + 1).

Definition iterationsNumbered (its : list Iter) : Prop :=
  map I.id its = map iterationIdAt (seq 0 (List.length its)).

(** Every module and every iteration carries the id of its position: the
    invariant of the collection as long as nothing is removed. *)
Definition numbered (ms : list Mod) : Prop :=
  map M.id ms = map moduleIdAt (seq 0 (List.length ms)) /\
  Forall (fun m => iterationsNumbered (M.iterations m)) ms.

(** Every iteration of every module has a non-empty title. *)
Definition titled (ms : list Mod) : Prop :=
  forall (m : Mod) (it : Iter),
    In m ms -> In it (M.iterations m) -> I.title it <> [].

(** [P] holds of every iteration of every module. *)
Definition allIterations (P : Iter -> Prop) (ms : list Mod) : Prop :=
  forall (m : Mod) (it : Iter),
    In m ms -> In it (M.iterations m) -> P it.

(** The module [m] has an iteration with the id [iterationId]. *)
Definition holdsIteration (iterationId : JS.str) (m : Mod) : Prop :=
  exists it : Iter, In it (M.iterations m) /\ I.id it = iterationId.

(** ** The components between the user and the page

    A component is modelled by what a user action on one of its controls
    does to the state of the page: the callback it was given is run when
    the control is rendered, not disabled, and the guard of its handler
    holds; otherwise the state is unchanged. *)

(** [status === other]. *)
Definition statusEqb (status other : Status) : bool :=
  match status, other with
  | completed, completed | adding, adding | draft, draft => true
  | _, _ => false
  end.

Module ModuleHeader.

(** [handleHeaderClick], also run by Enter and Space on the header. *)
Definition handleHeaderClick {S : Type} (isLocked : bool) (onToggle : S -> S)
  (st : S) : S :=
  if negb isLocked then onToggle st else st.

(** The lock button is rendered when [!isEmpty]; its [handleLockClick]
    calls [onToggleLock]. *)
Definition lockButton {S : Type} (isEmpty : bool) (onToggleLock : S -> S)
  (st : S) : S :=
  if negb isEmpty then onToggleLock st else st.

End ModuleHeader.

Module ModuleFooter.

(** A button of the toolbar: [disabled={action.disabled || isLoading}]. *)
Definition button {S : Type} (actionDisabled isLoading : bool)
  (onClick : S -> S) (st : S) : S :=
  if actionDisabled || isLoading then st else onClick st.

Definition lockAction {S : Type} (isLoading : bool) (onLock : S -> S)
  : S -> S :=
  button isLoading isLoading onLock.

Definition resetAction {S : Type} (isLoading : bool) (onReset : S -> S)
  : S -> S :=
  button isLoading isLoading onReset.

Definition addAction {S : Type} (isLocked isLoading : bool)
  (onAddIteration : S -> S) : S -> S :=
  button (isLoading || isLocked) isLoading onAddIteration.

End ModuleFooter.

Module IterationItem.

Definition handleSelectionToggle {S : Type} (isLocked : bool)
  (iteration : Iter) (moduleId : JS.str)
  (onToggleSelection : JS.str -> JS.str -> S -> S) (st : S) : S :=
  if negb isLocked && statusEqb iteration.(Iteration.status) completed
  then onToggleSelection moduleId iteration.(Iteration.id) st
  else st.

Definition handleIterationClick {S : Type} (isLocked : bool)
  (iteration : Iter) (onIterationClick : JS.str -> S -> S) (st : S) : S :=
  if negb isLocked && statusEqb iteration.(Iteration.status) completed
  then onIterationClick iteration.(Iteration.id) st
  else st.

(** The selection button is rendered for a completed iteration and has
    [disabled={isLocked}]. *)
Definition selectionButton {S : Type} (isLocked : bool) (iteration : Iter)
  (moduleId : JS.str) (onToggleSelection : JS.str -> JS.str -> S -> S)
  (st : S) : S :=
  if statusEqb iteration.(Iteration.status) completed && negb isLocked
  then handleSelectionToggle isLocked iteration moduleId onToggleSelection st
  else st.

End IterationItem.

Module ExperimentModule.

(** The controls of one module. *)
Inductive Control : Type :=
| header
| lockButton
| footerLock
| footerReset
| footerAdd
| selection (j : nat)
| iterationTitle (j : nat).

Record Props (S : Type) : Type := mkProps
  { onToggleExpand : JS.str -> S -> S;
    onToggleLock : JS.str -> S -> S;
    onLockModule : JS.str -> S -> S;
    onResetModule : JS.str -> S -> S;
    onAddIteration : JS.str -> S -> S;
    onToggleSelection : JS.str -> JS.str -> S -> S;
    onIterationClick : JS.str -> S -> S;
    isLoading : bool;
    currentModuleId : JS.str }.

Arguments onToggleExpand {S} _.
Arguments onToggleLock {S} _.
Arguments onLockModule {S} _.
Arguments onResetModule {S} _.
Arguments onAddIteration {S} _.
Arguments onToggleSelection {S} _.
Arguments onIterationClick {S} _.
Arguments isLoading {S} _.
Arguments currentModuleId {S} _.

(** The header is always rendered; the iteration list and the footer are
    rendered when [module.isExpanded && !module.isLocked]. *)
Definition act {S : Type} (props : Props S) (module : Mod) (c : Control)
  (st : S) : S :=
  let isCurrentlyLoading :=
    props.(isLoading)
    && JS.eqb props.(currentModuleId) module.(ExperimentModuleData.id) in
  let content :=
    module.(ExperimentModuleData.isExpanded)
    && negb module.(ExperimentModuleData.isLocked) in
  let moduleId := module.(ExperimentModuleData.id) in
  let isLocked := module.(ExperimentModuleData.isLocked) in
  match c with
  | header =>
      ModuleHeader.handleHeaderClick isLocked
        (props.(onToggleExpand) moduleId) st
  | lockButton =>
      ModuleHeader.lockButton
        (List.length module.(ExperimentModuleData.iterations) =? 0)
        (props.(onToggleLock) moduleId) st
  | footerLock =>
      if content
      then ModuleFooter.lockAction isCurrentlyLoading
             (props.(onLockModule) moduleId) st
      else st
  | footerReset =>
      if content
      then ModuleFooter.resetAction isCurrentlyLoading
             (props.(onResetModule) moduleId) st
      else st
  | footerAdd =>
      if content
      then ModuleFooter.addAction isLocked isCurrentlyLoading
             (props.(onAddIteration) moduleId) st
      else st
  | selection j =>
      match nth_error module.(ExperimentModuleData.iterations) j with
      | Some iteration =>
          if content
          then IterationItem.selectionButton isLocked iteration moduleId
                 props.(onToggleSelection) st
          else st
      | None => st
      end
  | iterationTitle j =>
      match nth_error module.(ExperimentModuleData.iterations) j with
      | Some iteration =>
          if content
          then IterationItem.handleIterationClick isLocked iteration
                 props.(onIterationClick) st
          else st
      | None => st
      end
  end.

End ExperimentModule.

Module AddIterationModal.

(** DONE, and Ctrl+Enter in the prompt input: rendered when [isOpen],
    disabled when [isLoading]; [handleSubmit] calls [onConfirm]. *)
Definition done {S : Type} (isOpen isLoading showPromptInput : bool)
  (prompt : JS.str) (onConfirm : option JS.str -> S -> S) (st : S) : S :=
  if isOpen && negb isLoading
  then onConfirm (handleSubmit showPromptInput prompt) st
  else st.

(** The close button, the backdrop and Escape. *)
Definition close {S : Type} (isOpen : bool) (onClose : S -> S) (st : S) : S :=
  if isOpen then onClose st else st.

End AddIterationModal.

Module LengthSelectionModal.

Definition handleConfirm {S : Type} (isLoading : bool)
  (iterationTitle : JS.str) (onConfirm : LengthOption -> S -> S) (st : S)
  : S :=
  if negb isLoading then onConfirm (getLengthCategory iterationTitle) st
  else st.

Definition handleRemove {S : Type} (isLoading : bool) (onRemove : S -> S)
  (st : S) : S :=
  if negb isLoading then onRemove st else st.

Definition done {S : Type} (isOpen isLoading : bool)
  (iterationTitle : JS.str) (onConfirm : LengthOption -> S -> S) (st : S)
  : S :=
  if isOpen then handleConfirm isLoading iterationTitle onConfirm st else st.

Definition remove {S : Type} (isOpen isLoading : bool) (onRemove : S -> S)
  (st : S) : S :=
  if isOpen then handleRemove isLoading onRemove st else st.

(** The close button, the backdrop and Escape, all off while loading. *)
Definition close {S : Type} (isOpen isLoading : bool) (onClose : S -> S)
  (st : S) : S :=
  if isOpen && negb isLoading then onClose st else st.

End LengthSelectionModal.

(** ** What the user can do on the page

    The render of [ExperimentModuleApp] wires the handlers of the page to
    the components.  The controls of the page stay available while a
    dialog is open: the overlay of a dialog is not modelled, so the
    sequences of actions here include those of the browser. *)

Module Page.

Inductive Action : Type :=
| addModuleButton
| onModule (k : nat) (c : ExperimentModule.Control)
| addDialogDone (showPromptInput : bool) (prompt : JS.str)
| addDialogClose
| lengthDialogDone
| lengthDialogRemove
| lengthDialogClose
| timeoutElapses.

Definition moduleProps (st : App.State) : ExperimentModule.Props App.State :=
  {| ExperimentModule.onToggleExpand := fun m => App.step (App.ToggleExpand m);
     ExperimentModule.onToggleLock := fun m => App.step (App.ToggleLock m);
     ExperimentModule.onLockModule := fun m => App.step (App.LockModule m);
     ExperimentModule.onResetModule := fun m => App.step (App.ResetModule m);
     ExperimentModule.onAddIteration :=
       fun m => App.step (App.AddIteration m);
     ExperimentModule.onToggleSelection :=
       fun m i => App.step (App.ToggleSelection m i);
     ExperimentModule.onIterationClick :=
       fun i => App.step (App.IterationClick i);
     ExperimentModule.isLoading := st.(App.isProcessing);
     ExperimentModule.currentModuleId := st.(App.currentModuleId) |}.

Definition perform (a : Action) (st : App.State) : App.State :=
  match a with
  | addModuleButton => App.step App.AddNewModule st
  | onModule k c =>
      match nth_error st.(App.modules) k with
      | Some module => ExperimentModule.act (moduleProps st) module c st
      | None => st
      end
  | addDialogDone showPromptInput prompt =>
      AddIterationModal.done st.(App.showAddModal) st.(App.isProcessing)
        showPromptInput prompt
        (fun p => App.step (App.AddIterationComplete p)) st
  | addDialogClose =>
      AddIterationModal.close st.(App.showAddModal)
        (App.step App.CloseAddModal) st
  | lengthDialogDone =>
      LengthSelectionModal.done st.(App.showLengthModal)
        st.(App.isProcessing)
        (JS.or_str (option_map Iteration.title (App.getCurrentIteration st))
           (JS.utf16 "Iteration"))
        (fun l => App.step (App.LengthConfirm l)) st
  | lengthDialogRemove =>
      LengthSelectionModal.remove st.(App.showLengthModal)
        st.(App.isProcessing) (App.step App.RemoveIteration) st
  | lengthDialogClose =>
      LengthSelectionModal.close st.(App.showLengthModal)
        st.(App.isProcessing) (App.step App.CloseLengthModal) st
  | timeoutElapses => App.step App.TimeoutElapsed st
  end.

Definition performs (actions : list Action) (st : App.State) : App.State :=
  fold_left (fun s a => perform a s) actions st.

Definition isRemove (a : Action) : bool :=
  match a with
  | lengthDialogRemove => true
  | _ => false
  end.

End Page.

(** A locked module is collapsed. *)
Definition lockedCollapsed (ms : list Mod) : Prop :=
  forall m : Mod, In m ms -> M.isLocked m = true -> M.isExpanded m = false.

(** An iteration that is selected is completed. *)
Definition selectedCompleted (it : Iter) : Prop :=
  I.isSelected it = true -> I.status it = completed.

(** What the components guarantee when they let an event reach the page:
    a header toggles a module that is not locked, a selection button
    toggles a completed iteration of a module that is not locked, and the
    add dialog confirms when nothing is being processed. *)
Definition guardOf (st : App.State) (e : App.Event) : Prop :=
  match e with
  | App.ToggleExpand a =>
      exists m : Mod,
        In m (App.modules st) /\ M.id m = a /\ M.isLocked m = false
  | App.ToggleSelection a i =>
      exists (m : Mod) (it : Iter),
        In m (App.modules st) /\ In it (M.iterations m) /\
        M.id m = a /\ I.id it = i /\
        I.status it = completed /\ M.isLocked m = false
  | App.AddIterationComplete _ => App.isProcessing st = false
  | _ => True
  end.

(** Either nothing is scheduled and nothing is being processed, or one
    completion is scheduled and [isProcessing] is set. *)
Definition onePending (st : App.State) : Prop :=
  (App.scheduled st = [] /\ App.isProcessing st = false) \/
  (exists cb : App.Timeout,
      App.scheduled st = [cb] /\ App.isProcessing st = true).

(** Two additions that complete, the removal of the first iteration
    through the length dialog, a third addition, and a click on the
    selection button of the first iteration before the timeout. *)
Definition removeThenSelect : list Page.Action :=
  [ Page.onModule 0 ExperimentModule.header;
    Page.onModule 0 ExperimentModule.footerAdd;
    Page.addDialogDone false [];
    Page.timeoutElapses;
    Page.onModule 0 ExperimentModule.footerAdd;
    Page.addDialogDone false [];
    Page.timeoutElapses;
    Page.onModule 0 (ExperimentModule.iterationTitle 0);
    Page.lengthDialogRemove;
    Page.onModule 0 ExperimentModule.footerAdd;
    Page.addDialogDone false [];
    Page.onModule 0 (ExperimentModule.selection 0) ].

(** [after] is [before] without the entries whose id is [iterationId]: the
    list is walked from its head, an entry with that id is dropped and any
    other entry is kept at its place among those kept. *)
Inductive withoutId (iterationId : JS.str) : list Iter -> list Iter -> Prop :=
| withoutId_nil : withoutId iterationId [] []
| withoutId_drop (it : Iter) (before after : list Iter) :
    I.id it = iterationId ->
    withoutId iterationId before after ->
    withoutId iterationId (it :: before) after
| withoutId_keep (it : Iter) (before after : list Iter) :
    I.id it <> iterationId ->
    withoutId iterationId before after ->
    withoutId iterationId (it :: before) (it :: after).

(** * Properties *)

(** ** Strings *)

Module JSFacts.

Lemma eqb_refl (a : JS.str) : JS.eqb a a = true.
Proof.
  induction a as [|x a IH]; simpl; [reflexivity|].
  now rewrite N.eqb_refl, IH.
Qed.

Lemma eqb_eq (a b : JS.str) : JS.eqb a b = true <-> a = b.
Proof.
  split.
  - revert b; induction a as [|x a IH]; intros [|y b]; simpl;
      try discriminate; [reflexivity|].
    intros H; apply andb_true_iff in H as [Hx Hr].
    apply N.eqb_eq in Hx; apply IH in Hr; now subst.
  - intros ->; apply eqb_refl.
Qed.

Lemma eqb_neq (a b : JS.str) : JS.eqb a b = false <-> a <> b.
Proof.
  rewrite <- eqb_eq; destruct (JS.eqb a b); split; congruence.
Qed.

Lemma N_of_ascii_inj (a b : ascii) : N_of_ascii a = N_of_ascii b -> a = b.
Proof.
  intros H; rewrite <- (ascii_N_embedding a), <- (ascii_N_embedding b).
  now rewrite H.
Qed.

Lemma utf16_inj (s t : string) : JS.utf16 s = JS.utf16 t -> s = t.
Proof.
  unfold JS.utf16; revert t; induction s as [|c s IH]; intros [|d t]; simpl;
    try discriminate; [reflexivity|].
  intros H; injection H as Hc Hr.
  apply N_of_ascii_inj in Hc; apply IH in Hr; now subst.
Qed.

Lemma ofNumber_inj (n m : nat) : JS.ofNumber n = JS.ofNumber m -> n = m.
Proof.
  unfold JS.ofNumber; intros H; apply utf16_inj in H.
  apply (f_equal NilEmpty.uint_of_string) in H.
  rewrite !NilEmpty.usu in H; injection H as H.
  now apply Unsigned.to_uint_inj.
Qed.

Lemma trimStart_whitespace (s : JS.str) :
  forallb JS.isWhiteSpace s = true -> JS.trimStart s = [].
Proof.
  induction s as [|c s IH]; simpl; [reflexivity|].
  intros H; apply andb_true_iff in H as [Hc Hs]; rewrite Hc; auto.
Qed.

Lemma trim_whitespace (s : JS.str) :
  forallb JS.isWhiteSpace s = true -> JS.trim s = [].
Proof.
  intros H; unfold JS.trim, JS.trimEnd.
  now rewrite (trimStart_whitespace s H).
Qed.

Lemma or_str_nonempty (v : option JS.str) (d : JS.str) :
  d <> [] -> JS.or_str v d <> [].
Proof.
  intros Hd; destruct v as [[|c s]|]; simpl; auto; discriminate.
Qed.

End JSFacts.

(** ** Lists rewritten entry by entry *)

Section MapFacts.

Variables (A : Type) (f : A -> A).

Lemma map_fixed (l : list A) :
  (forall x, In x l -> f x = x) -> map f l = l.
Proof.
  intros H; rewrite (map_ext_in f (fun x => x) l H); apply map_id.
Qed.

Lemma map_idempotent (l : list A) :
  (forall x, f (f x) = f x) -> map f (map f l) = map f l.
Proof.
  intros H; rewrite map_map; apply map_ext; intros; apply H.
Qed.

Lemma map_involutive (l : list A) :
  (forall x, f (f x) = x) -> map f (map f l) = l.
Proof.
  intros H; rewrite map_map.
  rewrite (map_ext (fun x => f (f x)) (fun x => x) H); apply map_id.
Qed.

Lemma map_middle (pre post : list A) (x : A) :
  (forall y, In y pre -> f y = y) ->
  (forall y, In y post -> f y = y) ->
  map f (pre ++ x :: post) = pre ++ f x :: post.
Proof.
  intros Hpre Hpost; rewrite map_app; simpl.
  now rewrite (map_fixed pre Hpre), (map_fixed post Hpost).
Qed.

End MapFacts.

(** Rewrites the lookup of an updated collection into the update of the
    looked-up entry. *)
Ltac lookup_updated H :=
  rewrite ?nth_error_map, ?H; simpl;
  rewrite ?JSFacts.eqb_refl; simpl.

(** ** The title-length classifier *)

(** C4: the classifier depends on the title's length only: at most 15 code
    units give [short], 16 to 34 give [medium], 35 and more give
    [very_long]; so titles of 5 and 15 units are short, of 16 and 34 medium,
    and of 35 very long. *)
Theorem getLengthCategory_thresholds :
  (forall title : JS.str,
      (List.length title <= 15 -> getLengthCategory title = short) /\
      (15 < List.length title < 35 -> getLengthCategory title = medium) /\
      (35 <= List.length title -> getLengthCategory title = very_long)) /\
  getLengthCategory (JS.utf16 "Short") = short /\
  (forall title : JS.str,
      (List.length title = 5 -> getLengthCategory title = short) /\
      (List.length title = 15 -> getLengthCategory title = short) /\
      (List.length title = 16 -> getLengthCategory title = medium) /\
      (List.length title = 34 -> getLengthCategory title = medium) /\
      (List.length title = 35 -> getLengthCategory title = very_long)).
Proof.
  assert (Hgen : forall title : JS.str,
      (List.length title <= 15 -> getLengthCategory title = short) /\
      (15 < List.length title < 35 -> getLengthCategory title = medium) /\
      (35 <= List.length title -> getLengthCategory title = very_long)).
  { intros title; unfold getLengthCategory; cbv zeta.
    destruct (Nat.leb_spec (List.length title) 15) as [Hle|Hgt];
      destruct (Nat.ltb_spec (List.length title) 35) as [Hlt|Hge];
      repeat split; intros; try reflexivity; lia. }
  split; [exact Hgen|]; split; [reflexivity|].
  intros title; destruct (Hgen title) as (Hs & Hm & Hl).
  repeat split; intros E; [apply Hs|apply Hs|apply Hm|apply Hm|apply Hl]; lia.
Qed.

Lemma getLengthCategory_thresholds_witness :
  getLengthCategory (JS.utf16 "exactly 15 char") = short /\
  getLengthCategory (JS.utf16 "sixteen chars ok") = medium /\
  getLengthCategory (JS.utf16 "thirty-four characters in this one") = medium /\
  getLengthCategory (JS.utf16 "thirty-five characters in this one!")
  = very_long.
Proof.
  destruct getLengthCategory_thresholds as (Hgen & _ & Hpt).
  split; [|split; [|split]].
  - apply (Hpt (JS.utf16 "exactly 15 char")); reflexivity.
  - apply (Hgen (JS.utf16 "sixteen chars ok")); simpl; lia.
  - apply (Hpt (JS.utf16 "thirty-four characters in this one")); reflexivity.
  - apply (Hgen (JS.utf16 "thirty-five characters in this one!")); simpl; lia.
Defined.

(** ** Locking *)

(** C2: for a module of the collection named by [moduleId], two
    [handleToggleLock] in a row give back its [isLocked]; one call on an
    unlocked module locks it and collapses it, one call on a locked module
    unlocks it and leaves [isExpanded] as it was, so that locking and then
    unlocking leaves the module collapsed. *)
Theorem toggleLock_twice_restores_lock :
  forall (prev : list Mod) (moduleId : JS.str) (i : nat) (m : Mod),
    nth_error prev i = Some m ->
    M.id m = moduleId ->
    exists m1 m2 : Mod,
      nth_error (Store.handleToggleLock moduleId prev) i = Some m1 /\
      nth_error
        (Store.handleToggleLock moduleId
           (Store.handleToggleLock moduleId prev)) i = Some m2 /\
      M.isLocked m2 = M.isLocked m /\
      (M.isLocked m = false ->
       M.isLocked m1 = true /\ M.isExpanded m1 = false /\
       M.isExpanded m2 = false) /\
      (M.isLocked m = true ->
       M.isLocked m1 = false /\ M.isExpanded m1 = M.isExpanded m) /\
      M.id m1 = M.id m /\ M.title m1 = M.title m /\
      M.iterations m1 = M.iterations m.
Proof.
  intros prev moduleId i m Hi Hid; subst moduleId.
  eexists; eexists; unfold Store.handleToggleLock.
  split; [lookup_updated Hi; reflexivity|].
  split; [lookup_updated Hi; reflexivity|].
  destruct m as [mid mt lk ex its]; simpl.
  destruct lk; simpl; repeat split; intros; try reflexivity; discriminate.
Qed.

Lemma toggleLock_twice_restores_lock_witness :
  exists m1 m2 : Mod,
    nth_error
      (Store.handleToggleLock (JS.utf16 "em-1")
         [M.mk (JS.utf16 "em-1") (JS.utf16 "Experiment Module") false true []])
      0 = Some m1 /\
    nth_error
      (Store.handleToggleLock (JS.utf16 "em-1")
         (Store.handleToggleLock (JS.utf16 "em-1")
            [M.mk (JS.utf16 "em-1") (JS.utf16 "Experiment Module")
               false true []]))
      0 = Some m2 /\
    M.isLocked m1 = true /\ M.isExpanded m1 = false /\
    M.isLocked m2 = false /\ M.isExpanded m2 = false.
Proof.
  destruct
    (@toggleLock_twice_restores_lock
       [M.mk (JS.utf16 "em-1") (JS.utf16 "Experiment Module") false true []]
       (JS.utf16 "em-1") 0
       (M.mk (JS.utf16 "em-1") (JS.utf16 "Experiment Module") false true [])
       eq_refl eq_refl)
    as (m1 & m2 & H1 & H2 & Hl & Hlock & _).
  exists m1, m2.
  destruct (Hlock eq_refl) as (Ha & Hb & Hc).
  repeat (split; [assumption|]); assumption.
Defined.

(** ** Selection *)

(** C6: [handleToggleSelection] applied twice gives back the collection it
    started from, hence every [isSelected]; and one call flips [isSelected]
    of an iteration named by the two ids whatever the module's [isLocked]
    and the iteration's [status] are, leaving its other fields alone. *)
Theorem toggleSelection_self_inverse :
  forall (prev : list Mod) (moduleId iterationId : JS.str),
    Store.handleToggleSelection moduleId iterationId
      (Store.handleToggleSelection moduleId iterationId prev) = prev /\
    (forall (i j : nat) (m : Mod) (it : Iter),
        nth_error prev i = Some m ->
        M.id m = moduleId ->
        nth_error (M.iterations m) j = Some it ->
        I.id it = iterationId ->
        exists (m' : Mod) (it' : Iter),
          nth_error
            (Store.handleToggleSelection moduleId iterationId prev) i
          = Some m' /\
          nth_error (M.iterations m') j = Some it' /\
          I.isSelected it' = negb (I.isSelected it) /\
          I.status it' = I.status it /\
          I.id it' = I.id it /\ I.title it' = I.title it /\
          M.isLocked m' = M.isLocked m).
Proof.
  intros prev moduleId iterationId; split.
  - unfold Store.handleToggleSelection; apply map_involutive.
    intros [mid mt lk ex its]; simpl.
    destruct (JS.eqb mid moduleId) eqn:E; simpl; rewrite E; [|reflexivity].
    f_equal; apply map_involutive.
    intros [iid ttl sel stt]; simpl.
    destruct (JS.eqb iid iterationId) eqn:F; simpl; rewrite F;
      [|reflexivity].
    now rewrite negb_involutive.
  - intros i j m it Hi Hm Hj Hit; subst.
    eexists; eexists; unfold Store.handleToggleSelection.
    split; [lookup_updated Hi; reflexivity|].
    simpl; split; [lookup_updated Hj; reflexivity|].
    simpl; repeat split.
Qed.

Lemma toggleSelection_self_inverse_witness :
  exists (m' : Mod) (it' : Iter),
    nth_error
      (Store.handleToggleSelection (JS.utf16 "em-1") (JS.utf16 "EM-1")
         [M.mk (JS.utf16 "em-1") (JS.utf16 "Experiment Module") true false
            [I.mk (JS.utf16 "EM-1") (JS.utf16 "Adding iteration...")
               false adding]]) 0 = Some m' /\
    nth_error (M.iterations m') 0 = Some it' /\
    I.isSelected it' = true /\ I.status it' = adding /\
    M.isLocked m' = true.
Proof.
  destruct
    (proj2
       (toggleSelection_self_inverse
          [M.mk (JS.utf16 "em-1") (JS.utf16 "Experiment Module") true false
             [I.mk (JS.utf16 "EM-1") (JS.utf16 "Adding iteration...")
                false adding]]
          (JS.utf16 "em-1") (JS.utf16 "EM-1"))
       0 0 _ _ eq_refl eq_refl eq_refl eq_refl)
    as (m' & it' & H1 & H2 & H3 & H4 & _ & _ & H5).
  exists m', it'; repeat (split; [assumption|]); assumption.
Defined.

(** ** Reset *)

(** C7: [handleResetModule] keeps the number and order of the modules; a
    module with another id is returned as it is; the named module keeps its
    id, title, [isLocked] and [isExpanded], and each of its iterations keeps
    its position, id, title and status and has [isSelected = false].
    Applying it twice is the same as applying it once. *)
Theorem resetModule_clears_selection_only :
  forall (prev : list Mod) (moduleId : JS.str),
    List.length (Store.handleResetModule moduleId prev) = List.length prev /\
    (forall (i : nat) (m : Mod),
        nth_error prev i = Some m ->
        exists m' : Mod,
          nth_error (Store.handleResetModule moduleId prev) i = Some m' /\
          M.id m' = M.id m /\ M.title m' = M.title m /\
          M.isLocked m' = M.isLocked m /\
          M.isExpanded m' = M.isExpanded m /\
          List.length (M.iterations m') = List.length (M.iterations m) /\
          (M.id m <> moduleId -> m' = m) /\
          (M.id m = moduleId ->
           forall (j : nat) (it : Iter),
             nth_error (M.iterations m) j = Some it ->
             exists it' : Iter,
               nth_error (M.iterations m') j = Some it' /\
               I.isSelected it' = false /\
               I.status it' = I.status it /\
               I.title it' = I.title it /\
               I.id it' = I.id it)) /\
    Store.handleResetModule moduleId (Store.handleResetModule moduleId prev)
    = Store.handleResetModule moduleId prev.
Proof.
  intros prev moduleId; split; [|split].
  - apply length_map.
  - intros i m Hi; eexists; unfold Store.handleResetModule.
    split; [rewrite nth_error_map, Hi; reflexivity|].
    destruct (JS.eqb (M.id m) moduleId) eqn:E; simpl.
    + rewrite length_map; repeat split; try reflexivity.
      * apply JSFacts.eqb_eq in E; intros Hne; contradiction.
      * intros _ j it Hj; eexists.
        split; [rewrite nth_error_map, Hj; reflexivity|].
        simpl; repeat split.
    + apply JSFacts.eqb_neq in E.
      repeat split; try reflexivity; intros; contradiction.
  - unfold Store.handleResetModule; apply map_idempotent.
    intros [mid mt lk ex its]; simpl.
    destruct (JS.eqb mid moduleId) eqn:E; simpl; rewrite E; [|reflexivity].
    f_equal; apply map_idempotent; reflexivity.
Qed.

Lemma resetModule_clears_selection_only_witness :
  exists it' : Iter,
    nth_error
      (M.iterations
         (nth 0
            (Store.handleResetModule (JS.utf16 "em-1")
               [M.mk (JS.utf16 "em-1") (JS.utf16 "Experiment Module")
                  true false
                  [I.mk (JS.utf16 "EM-1") (JS.utf16 "My Title")
                     true completed]])
            (M.mk [] [] false false []))) 0 = Some it' /\
    I.isSelected it' = false /\ I.status it' = completed /\
    I.title it' = JS.utf16 "My Title".
Proof.
  destruct
    (resetModule_clears_selection_only
       [M.mk (JS.utf16 "em-1") (JS.utf16 "Experiment Module") true false
          [I.mk (JS.utf16 "EM-1") (JS.utf16 "My Title") true completed]]
       (JS.utf16 "em-1")) as (_ & Hframe & _).
  destruct (Hframe 0 _ eq_refl) as (m' & Hm' & _ & _ & _ & _ & _ & _ & Hits).
  injection Hm' as Hm'.
  destruct (Hits eq_refl 0 _ eq_refl) as (it' & Hit' & Hsel & Hst & Htt & _).
  exists it'; subst m'; repeat (split; [assumption|]); assumption.
Defined.

(** ** Ids that match nothing *)

Lemma filter_keeps_all (A : Type) (p : A -> bool) (l : list A) :
  (forall x, In x l -> p x = true) -> filter p l = l.
Proof.
  induction l as [|x l IH]; simpl; intros H; [reflexivity|].
  rewrite (H x (or_introl eq_refl)); f_equal; apply IH; auto.
Qed.

Lemma apply_moduleAbsent (o : Op.t) (moduleId : JS.str) (prev : list Mod) :
  Op.moduleIdOf o = Some moduleId ->
  moduleAbsent moduleId prev ->
  Op.apply o prev = prev.
Proof.
  intros Ho Habs.
  destruct o; simpl in Ho; try discriminate; injection Ho as ->; simpl;
    apply map_fixed; intros m Hm;
    apply Habs, JSFacts.eqb_neq in Hm; rewrite Hm; reflexivity.
Qed.

Lemma apply_iterationAbsent (o : Op.t) (moduleId iterationId : JS.str)
  (prev : list Mod) :
  Op.moduleIdOf o = Some moduleId ->
  Op.iterationIdOf o = Some iterationId ->
  iterationAbsent moduleId iterationId prev ->
  Op.apply o prev = prev.
Proof.
  intros Ho Hi Habs.
  destruct o; simpl in Ho, Hi; try discriminate;
    injection Ho as ->; injection Hi as ->; simpl;
    apply map_fixed; intros [mid mt lk ex its] Hm; simpl;
    (destruct (JS.eqb mid moduleId) eqn:E; [|reflexivity]);
    apply JSFacts.eqb_eq in E; f_equal;
    pose proof (fun it => Habs _ it Hm E) as Hits; simpl in Hits.
  - apply map_fixed; intros it Hit.
    apply Hits, JSFacts.eqb_neq in Hit; now rewrite Hit.
  - apply map_fixed; intros it Hit.
    apply Hits, JSFacts.eqb_neq in Hit; now rewrite Hit.
  - apply filter_keeps_all; intros it Hit.
    apply Hits, JSFacts.eqb_neq in Hit; now rewrite Hit.
Qed.

(** C8: every store operation is a function on collections, defined on
    every collection and every id ([Op.apply] has no failure case): it
    returns a collection, with one module more for [createModule] and as
    many modules as before otherwise.  An operation invoked with a module id
    that no module has returns the collection it was given, and so does an
    operation invoked with an iteration id that no iteration of the named
    module has. *)
Theorem missing_ids_are_noops :
  forall (o : Op.t) (prev : list Mod),
    (exists next : list Mod,
        Op.apply o prev = next /\
        List.length next
        = List.length prev
          + match o with Op.createModule => 1 | _ => 0 end) /\
    (forall moduleId : JS.str,
        Op.moduleIdOf o = Some moduleId ->
        moduleAbsent moduleId prev ->
        Op.apply o prev = prev) /\
    (forall moduleId iterationId : JS.str,
        Op.moduleIdOf o = Some moduleId ->
        Op.iterationIdOf o = Some iterationId ->
        iterationAbsent moduleId iterationId prev ->
        Op.apply o prev = prev).
Proof.
  intros o prev; split; [|split].
  - eexists; split; [reflexivity|].
    destruct o; simpl;
      unfold Store.addNewModule, Store.handleToggleExpand,
        Store.handleToggleLock, Store.handleLockModule,
        Store.handleResetModule, Store.handleToggleSelection,
        Store.addIterationAdding, Store.addIterationCompleted,
        Store.handleRemoveIteration;
      rewrite ?length_map, ?last_length; lia.
  - intros moduleId; apply apply_moduleAbsent.
  - intros moduleId iterationId; apply apply_iterationAbsent.
Qed.

Lemma missing_ids_are_noops_witness :
  Op.apply (Op.toggleLock (JS.utf16 "em-7")) Store.initialModules
  = Store.initialModules /\
  Op.apply (Op.beginAddIteration (JS.utf16 "em-7")) Store.initialModules
  = Store.initialModules /\
  Op.apply (Op.removeIteration (JS.utf16 "em-1") (JS.utf16 "EM-1"))
    Store.initialModules
  = Store.initialModules.
Proof.
  assert (Habs : moduleAbsent (JS.utf16 "em-7") Store.initialModules).
  { intros m [<-|[]]; discriminate. }
  assert (Hiabs : iterationAbsent (JS.utf16 "em-1") (JS.utf16 "EM-1")
                    Store.initialModules).
  { intros m it [<-|[]] _ []. }
  split; [|split].
  - exact (proj1 (proj2 (missing_ids_are_noops
                           (Op.toggleLock (JS.utf16 "em-7"))
                           Store.initialModules)) _ eq_refl Habs).
  - exact (proj1 (proj2 (missing_ids_are_noops
                           (Op.beginAddIteration (JS.utf16 "em-7"))
                           Store.initialModules)) _ eq_refl Habs).
  - exact (proj2 (proj2 (missing_ids_are_noops
                           (Op.removeIteration (JS.utf16 "em-1")
                              (JS.utf16 "EM-1"))
                           Store.initialModules)) _ _ eq_refl eq_refl Hiabs).
Defined.

(** ** Completing an addition *)

(** The iteration "EM-1" is present, the title supplied is the empty string,
    and the title after completion is not that string. *)
Lemma completeAddIteration_empty_title_replaced :
  nth_error oneAdding 0
  = Some (M.mk (JS.utf16 "em-1") (JS.utf16 "Experiment Module") false false
            [I.mk (JS.utf16 "EM-1") (JS.utf16 "Adding iteration...")
               false adding]) /\
  ~ completedWithTitle
      (Store.addIterationCompleted (JS.utf16 "em-1") (JS.utf16 "EM-1")
         (Some []) oneAdding) 0 0 [].
Proof.
  split; [reflexivity|].
  intros (m' & it' & Hm & Hit & _ & Ht).
  vm_compute in Hm; injection Hm as <-.
  vm_compute in Hit; injection Hit as <-.
  discriminate Ht.
Qed.

Lemma addIterationCompleted_present (prev : list Mod)
  (moduleId iterationId : JS.str) (prompt : option JS.str) (i j : nat)
  (m : Mod) (it : Iter) :
  nth_error prev i = Some m ->
  M.id m = moduleId ->
  nth_error (M.iterations m) j = Some it ->
  I.id it = iterationId ->
  exists (m' : Mod) (it' : Iter),
    nth_error (Store.addIterationCompleted moduleId iterationId prompt prev) i
    = Some m' /\
    nth_error (M.iterations m') j = Some it' /\
    I.status it' = completed /\
    I.title it' = JS.or_str prompt (JS.utf16 "Iteration title") /\
    I.id it' = I.id it /\ I.isSelected it' = I.isSelected it.
Proof.
  intros Hi Hm Hj Hit; subst.
  eexists; eexists; unfold Store.addIterationCompleted.
  split; [lookup_updated Hi; reflexivity|].
  simpl; split; [lookup_updated Hj; reflexivity|].
  simpl; repeat split.
Qed.

(** C3: when no iteration of the named module has the id,
    the updater of the completion returns the collection unchanged; it
    never changes the number of iterations of any module; and an iteration
    that has the id gets status [completed] and the title [prompt ||
    "Iteration title"], which is the supplied title when that is a non-empty
    string, its id and [isSelected] being kept. *)
Theorem completeAddIteration_absent_or_completed :
  forall (prev : list Mod) (moduleId iterationId : JS.str)
         (prompt : option JS.str),
    (iterationAbsent moduleId iterationId prev ->
     Store.addIterationCompleted moduleId iterationId prompt prev = prev) /\
    map (fun m => List.length (M.iterations m))
      (Store.addIterationCompleted moduleId iterationId prompt prev)
    = map (fun m => List.length (M.iterations m)) prev /\
    (forall (i j : nat) (m : Mod) (it : Iter),
        nth_error prev i = Some m ->
        M.id m = moduleId ->
        nth_error (M.iterations m) j = Some it ->
        I.id it = iterationId ->
        completedWithTitle
          (Store.addIterationCompleted moduleId iterationId prompt prev) i j
          (JS.or_str prompt (JS.utf16 "Iteration title")) /\
        (forall t : JS.str,
            prompt = Some t -> t <> [] ->
            completedWithTitle
              (Store.addIterationCompleted moduleId iterationId prompt prev)
              i j t) /\
        exists (m' : Mod) (it' : Iter),
          nth_error
            (Store.addIterationCompleted moduleId iterationId prompt prev) i
          = Some m' /\
          nth_error (M.iterations m') j = Some it' /\
          I.id it' = I.id it /\ I.isSelected it' = I.isSelected it).
Proof.
  intros prev moduleId iterationId prompt; split; [|split].
  - apply (@apply_iterationAbsent
             (Op.completeAddIteration moduleId iterationId prompt));
      reflexivity.
  - unfold Store.addIterationCompleted; rewrite map_map.
    apply map_ext; intros m.
    destruct (JS.eqb (M.id m) moduleId); simpl; [apply length_map|reflexivity].
  - intros i j m it Hi Hm Hj Hit.
    destruct (addIterationCompleted_present prev moduleId iterationId prompt
                i j m it Hi Hm Hj Hit)
      as (m' & it' & Hm' & Hit' & Hst & Htt & Hid & Hsel).
    assert (Hgen : completedWithTitle
              (Store.addIterationCompleted moduleId iterationId prompt prev)
              i j (JS.or_str prompt (JS.utf16 "Iteration title"))).
    { exists m', it'; auto. }
    split; [exact Hgen|]; split.
    + intros t -> Ht; destruct t as [|c t]; [contradiction|exact Hgen].
    + exists m', it'; auto.
Qed.

Lemma completeAddIteration_absent_or_completed_witness :
  Store.addIterationCompleted (JS.utf16 "em-1") (JS.utf16 "EM-1")
    (Some (JS.utf16 "My Title")) Store.initialModules
  = Store.initialModules /\
  completedWithTitle
    (Store.addIterationCompleted (JS.utf16 "em-1") (JS.utf16 "EM-1")
       (Some (JS.utf16 "My Title")) oneAdding) 0 0 (JS.utf16 "My Title").
Proof.
  split.
  - apply (completeAddIteration_absent_or_completed Store.initialModules
             (JS.utf16 "em-1") (JS.utf16 "EM-1")
             (Some (JS.utf16 "My Title"))).
    intros m it [<-|[]] _ [].
  - destruct (completeAddIteration_absent_or_completed oneAdding
                (JS.utf16 "em-1") (JS.utf16 "EM-1")
                (Some (JS.utf16 "My Title"))) as (_ & _ & Hpresent).
    destruct (Hpresent 0 0 _ _ eq_refl eq_refl eq_refl eq_refl)
      as (_ & Hsupplied & _).
    apply (Hsupplied (JS.utf16 "My Title") eq_refl); discriminate.
Defined.

(** ** Removal *)

(** In the collection reached by [addAddRemoveAdd] the module holds two
    iterations with id "EM-2", and removing "EM-2" removes both. *)
Lemma removeIteration_removes_two_entries :
  map M.iterations afterAddAddRemoveAdd
  = [[ I.mk (JS.utf16 "EM-2") (JS.utf16 "Second") false completed;
       I.mk (JS.utf16 "EM-2") (JS.utf16 "Adding iteration...") false adding ]]
  /\
  map M.iterations
    (Store.handleRemoveIteration (JS.utf16 "em-1") (JS.utf16 "EM-2")
       afterAddAddRemoveAdd)
  = [[]] /\
  ~ (forall m m' : Mod,
        nth_error afterAddAddRemoveAdd 0 = Some m ->
        nth_error
          (Store.handleRemoveIteration (JS.utf16 "em-1") (JS.utf16 "EM-2")
             afterAddAddRemoveAdd) 0 = Some m' ->
        removesExactlyOne (JS.utf16 "EM-2") (M.iterations m)
          (M.iterations m')).
Proof.
  split; [vm_compute; reflexivity|]; split; [vm_compute; reflexivity|].
  intros H.
  assert (Hbefore : exists m, nth_error afterAddAddRemoveAdd 0 = Some m /\
                              List.length (M.iterations m) = 2).
  { eexists; split; vm_compute; reflexivity. }
  assert (Hafter : exists m',
             nth_error
               (Store.handleRemoveIteration (JS.utf16 "em-1")
                  (JS.utf16 "EM-2") afterAddAddRemoveAdd) 0 = Some m' /\
             M.iterations m' = []).
  { eexists; split; vm_compute; reflexivity. }
  destruct Hbefore as (m & Hm & Hlen), Hafter as (m' & Hm' & Hnil).
  destruct (H m m' Hm Hm') as (l1 & it & l2 & Hb & Ha & _).
  rewrite Hnil in Ha; symmetry in Ha; apply app_eq_nil in Ha as [-> ->].
  rewrite Hb in Hlen; discriminate Hlen.
Qed.

Lemma filter_filter (A : Type) (p : A -> bool) (l : list A) :
  filter p (filter p l) = filter p l.
Proof.
  apply filter_keeps_all; intros x Hx; apply filter_In in Hx; tauto.
Qed.

Lemma filter_withoutId (iterationId : JS.str) (its : list Iter) :
  withoutId iterationId its
    (filter (fun iteration => negb (JS.eqb (I.id iteration) iterationId))
       its).
Proof.
  induction its as [|it its IH]; simpl; [constructor|].
  destruct (JS.eqb (I.id it) iterationId) eqn:E; simpl.
  - apply withoutId_drop; [now apply JSFacts.eqb_eq|exact IH].
  - apply withoutId_keep; [now apply JSFacts.eqb_neq|exact IH].
Qed.

Lemma withoutId_unique (iterationId : JS.str) (its a b : list Iter) :
  withoutId iterationId its a -> withoutId iterationId its b -> a = b.
Proof.
  intros Ha; revert b; induction Ha as [|it l a Hid Ha IH|it l a Hid Ha IH];
    intros b Hb; inversion Hb; subst; try contradiction; auto.
  f_equal; auto.
Qed.

(** C5: [handleRemoveIteration] leaves modules with another id as they
    are; from the named module it removes the entries whose id is
    [iterationId] and keeps the others in their order, whatever their
    status: the iterations left are the ones [withoutId] describes, and no
    other list is; when one entry has that id it removes exactly
    that entry; and applying it again with the same ids changes nothing. *)
Theorem removeIteration_removes_matching_entries :
  forall (prev : list Mod) (moduleId iterationId : JS.str),
    (forall (i : nat) (m : Mod),
        nth_error prev i = Some m ->
        exists m' : Mod,
          nth_error (Store.handleRemoveIteration moduleId iterationId prev) i
          = Some m' /\
          M.id m' = M.id m /\ M.title m' = M.title m /\
          M.isLocked m' = M.isLocked m /\
          M.isExpanded m' = M.isExpanded m /\
          (M.id m <> moduleId -> m' = m) /\
          (M.id m = moduleId ->
           (forall x : Iter,
               In x (M.iterations m') <->
               In x (M.iterations m) /\ I.id x <> iterationId) /\
           (forall (l1 : list Iter) (it : Iter) (l2 : list Iter),
               M.iterations m = l1 ++ it :: l2 ->
               I.id it = iterationId ->
               (forall x : Iter, In x (l1 ++ l2) -> I.id x <> iterationId) ->
               M.iterations m' = l1 ++ l2 /\
               removesExactlyOne iterationId (M.iterations m)
                 (M.iterations m')) /\
           withoutId iterationId (M.iterations m) (M.iterations m') /\
           (forall after : list Iter,
               withoutId iterationId (M.iterations m) after ->
               after = M.iterations m'))) /\
    Store.handleRemoveIteration moduleId iterationId
      (Store.handleRemoveIteration moduleId iterationId prev)
    = Store.handleRemoveIteration moduleId iterationId prev.
Proof.
  intros prev moduleId iterationId; split.
  - intros i m Hi; eexists; unfold Store.handleRemoveIteration.
    split; [rewrite nth_error_map, Hi; reflexivity|].
    destruct (JS.eqb (M.id m) moduleId) eqn:E; simpl.
    + apply JSFacts.eqb_eq in E.
      repeat (split; [reflexivity|]).
      split; [intros Hne; contradiction|].
      intros _; split; [|split; [|split]].
      * intros x; rewrite filter_In, negb_true_iff, JSFacts.eqb_neq.
        reflexivity.
      * intros l1 it l2 Hsplit Hit Hothers.
        assert (Hres : filter
                  (fun iteration =>
                     negb (JS.eqb (I.id iteration) iterationId))
                  (M.iterations m) = l1 ++ l2).
        { rewrite Hsplit, filter_app; simpl.
          rewrite Hit, JSFacts.eqb_refl; simpl.
          rewrite <- filter_app; apply filter_keeps_all.
          intros x Hx; apply Hothers, JSFacts.eqb_neq in Hx.
          now rewrite Hx. }
        split; [exact Hres|].
        exists l1, it, l2; auto.
      * apply filter_withoutId.
      * intros after Hafter.
        exact (withoutId_unique iterationId (M.iterations m) _ _ Hafter
                 (filter_withoutId iterationId (M.iterations m))).
    + apply JSFacts.eqb_neq in E.
      repeat (split; [reflexivity|]).
      intros Heq; contradiction.
  - unfold Store.handleRemoveIteration; apply map_idempotent.
    intros [mid mt lk ex its]; simpl.
    destruct (JS.eqb mid moduleId) eqn:E; simpl; rewrite E; [|reflexivity].
    f_equal; apply filter_filter.
Qed.

Lemma removeIteration_removes_matching_entries_witness :
  removesExactlyOne (JS.utf16 "EM-1")
    [ I.mk (JS.utf16 "EM-1") (JS.utf16 "First") false completed;
      I.mk (JS.utf16 "EM-2") (JS.utf16 "Second") true draft ]
    (M.iterations
       (nth 0
          (Store.handleRemoveIteration (JS.utf16 "em-1") (JS.utf16 "EM-1")
             [ M.mk (JS.utf16 "em-1") (JS.utf16 "Experiment Module")
                 false true
                 [ I.mk (JS.utf16 "EM-1") (JS.utf16 "First") false completed;
                   I.mk (JS.utf16 "EM-2") (JS.utf16 "Second") true draft ] ])
          (M.mk [] [] false false []))).
Proof.
  destruct
    (proj1
       (removeIteration_removes_matching_entries
          [ M.mk (JS.utf16 "em-1") (JS.utf16 "Experiment Module") false true
              [ I.mk (JS.utf16 "EM-1") (JS.utf16 "First") false completed;
                I.mk (JS.utf16 "EM-2") (JS.utf16 "Second") true draft ] ]
          (JS.utf16 "em-1") (JS.utf16 "EM-1")) 0 _ eq_refl)
    as (m' & Hm' & _ & _ & _ & _ & _ & Hnamed).
  injection Hm' as Hm'; subst m'.
  destruct (Hnamed eq_refl) as (_ & Hone & _).
  apply (Hone [] _ [ I.mk (JS.utf16 "EM-2") (JS.utf16 "Second") true draft ]
           eq_refl eq_refl).
  intros x [<-|[]]; discriminate.
Defined.

(** ** Adding an iteration *)

Lemma or_zero_Some (n : nat) : JS.or_zero (Some n) = n.
Proof. destruct n; reflexivity. Qed.

Lemma find_first_module (pre post : list Mod) (m : Mod) :
  moduleAbsent (M.id m) pre ->
  find (fun x => JS.eqb (M.id x) (M.id m)) (pre ++ m :: post) = Some m.
Proof.
  induction pre as [|x pre IH]; simpl; intros Habs.
  - now rewrite JSFacts.eqb_refl.
  - assert (Hx : JS.eqb (M.id x) (M.id m) = false).
    { apply JSFacts.eqb_neq, Habs; now left. }
    rewrite Hx; apply IH; intros y Hy; apply Habs; now right.
Qed.

Lemma getNextIterationNumber_count (pre post : list Mod) (m : Mod) :
  moduleAbsent (M.id m) pre ->
  Store.getNextIterationNumber (pre ++ m :: post) (M.id m)
  = List.length (M.iterations m) + 1.
Proof.
  intros Habs; unfold Store.getNextIterationNumber.
  rewrite (@find_first_module pre post m Habs); unfold option_map.
  now rewrite or_zero_Some.
Qed.

Lemma update_only_module (g : Mod -> Mod) (pre post : list Mod) (m : Mod) :
  moduleAbsent (M.id m) pre ->
  moduleAbsent (M.id m) post ->
  map (fun x => if JS.eqb (M.id x) (M.id m) then g x else x)
    (pre ++ m :: post)
  = pre ++ g m :: post.
Proof.
  intros Hpre Hpost.
  rewrite map_middle, JSFacts.eqb_refl; [reflexivity| |];
    intros y Hy; [apply Hpre in Hy|apply Hpost in Hy];
    apply JSFacts.eqb_neq in Hy; now rewrite Hy.
Qed.

(** After the addition on the initial module and its completion with the
    id of the addition and the title "My Title", the iteration does not have
    the id "1"; and completing with the id "1" completes nothing. *)
Lemma first_iteration_id_is_not_1 :
  Store.newIterationId Store.initialModules (JS.utf16 "em-1")
  <> JS.utf16 "1" /\
  map M.iterations
    (Op.run
       [ Op.beginAddIteration (JS.utf16 "em-1");
         Op.completeAddIteration (JS.utf16 "em-1")
           (Store.newIterationId Store.initialModules (JS.utf16 "em-1"))
           (Some (JS.utf16 "My Title")) ]
       Store.initialModules)
  <> [[ I.mk (JS.utf16 "1") (JS.utf16 "My Title") false completed ]] /\
  map M.iterations
    (Op.run
       [ Op.beginAddIteration (JS.utf16 "em-1");
         Op.completeAddIteration (JS.utf16 "em-1") (JS.utf16 "1")
           (Some (JS.utf16 "My Title")) ]
       Store.initialModules)
  <> [[ I.mk (JS.utf16 "1") (JS.utf16 "My Title") false completed ]].
Proof.
  split; [|split]; vm_compute; discriminate.
Qed.

(** C1: in a collection where [m] is the only module with its id,
    the addition appends to [m] exactly one iteration, whose id is "EM-"
    followed by the decimal digits of the number of iterations of [m] plus
    one, with the title "Adding iteration...", not selected, in status
    [adding], and changes nothing else.  When [m] has no iteration that id
    is "EM-1", and completing it with the title "My Title" leaves [m] with
    the single iteration of id "EM-1", title "My Title", status [completed],
    not selected.  The page component goes through these two steps from its
    initial state. *)
Theorem beginAddIteration_then_complete :
  (forall (pre post : list Mod) (m : Mod),
      moduleAbsent (M.id m) pre ->
      moduleAbsent (M.id m) post ->
      Store.newIterationId (pre ++ m :: post) (M.id m)
      = JS.utf16 "EM-" ++ JS.ofNumber (List.length (M.iterations m) + 1) /\
      Op.apply (Op.beginAddIteration (M.id m)) (pre ++ m :: post)
      = pre ++
        M.mk (M.id m) (M.title m) (M.isLocked m) (M.isExpanded m)
          (M.iterations m ++
           [ I.mk (Store.newIterationId (pre ++ m :: post) (M.id m))
               (JS.utf16 "Adding iteration...") false adding ])
        :: post /\
      (M.iterations m = [] ->
       Store.newIterationId (pre ++ m :: post) (M.id m) = JS.utf16 "EM-1" /\
       Op.run
         [ Op.beginAddIteration (M.id m);
           Op.completeAddIteration (M.id m)
             (Store.newIterationId (pre ++ m :: post) (M.id m))
             (Some (JS.utf16 "My Title")) ]
         (pre ++ m :: post)
       = pre ++
         M.mk (M.id m) (M.title m) (M.isLocked m) (M.isExpanded m)
           [ I.mk (JS.utf16 "EM-1") (JS.utf16 "My Title") false completed ]
         :: post)) /\
  App.modules
    (App.steps
       [ App.AddIteration (JS.utf16 "em-1");
         App.AddIterationComplete (Some (JS.utf16 "My Title")) ]
       App.initial)
  = [ M.mk (JS.utf16 "em-1") (JS.utf16 "Experiment Module") false false
        [ I.mk (JS.utf16 "EM-1") (JS.utf16 "Adding iteration...")
            false adding ] ] /\
  App.modules
    (App.steps
       [ App.AddIteration (JS.utf16 "em-1");
         App.AddIterationComplete (Some (JS.utf16 "My Title"));
         App.TimeoutElapsed ]
       App.initial)
  = [ M.mk (JS.utf16 "em-1") (JS.utf16 "Experiment Module") false false
        [ I.mk (JS.utf16 "EM-1") (JS.utf16 "My Title") false completed ] ].
Proof.
  split; [|split; reflexivity].
  intros pre post m Hpre Hpost.
  assert (Hid : Store.newIterationId (pre ++ m :: post) (M.id m)
                = JS.utf16 "EM-"
                  ++ JS.ofNumber (List.length (M.iterations m) + 1)).
  { unfold Store.newIterationId; cbv zeta.
    now rewrite (@getNextIterationNumber_count pre post m Hpre). }
  assert (Hbegin :
            Op.apply (Op.beginAddIteration (M.id m)) (pre ++ m :: post)
            = pre ++
              M.mk (M.id m) (M.title m) (M.isLocked m) (M.isExpanded m)
                (M.iterations m ++
                 [ I.mk (Store.newIterationId (pre ++ m :: post) (M.id m))
                     (JS.utf16 "Adding iteration...") false adding ])
              :: post).
  { simpl; unfold Store.addIterationAdding.
    now rewrite (@update_only_module _ pre post m Hpre Hpost). }
  split; [exact Hid|]; split; [exact Hbegin|].
  intros Hfresh.
  assert (Hone : Store.newIterationId (pre ++ m :: post) (M.id m)
                 = JS.utf16 "EM-1").
  { rewrite Hid, Hfresh; reflexivity. }
  split; [exact Hone|].
  unfold Op.run; simpl fold_left.
  fold (Op.apply (Op.beginAddIteration (M.id m)) (pre ++ m :: post)).
  rewrite Hbegin, Hone, Hfresh; unfold Store.addIterationCompleted.
  set (m1 := M.mk (M.id m) (M.title m) (M.isLocked m) (M.isExpanded m) _).
  change (M.id m) with (M.id m1) at 1.
  rewrite (@update_only_module _ pre post m1 Hpre Hpost); reflexivity.
Qed.

Lemma beginAddIteration_then_complete_witness :
  Op.run
    [ Op.beginAddIteration (JS.utf16 "em-1");
      Op.completeAddIteration (JS.utf16 "em-1")
        (Store.newIterationId Store.initialModules (JS.utf16 "em-1"))
        (Some (JS.utf16 "My Title")) ]
    Store.initialModules
  = [ M.mk (JS.utf16 "em-1") (JS.utf16 "Experiment Module") false false
        [ I.mk (JS.utf16 "EM-1") (JS.utf16 "My Title") false completed ] ].
Proof.
  refine
    (proj2
       (proj2
          (proj2
             (proj1 beginAddIteration_then_complete [] []
                (M.mk (JS.utf16 "em-1") (JS.utf16 "Experiment Module")
                   false false []) _ _)) eq_refl));
    intros x [].
Defined.

(** ** Numbering of iterations *)

Module Numbering.

Lemma moduleIdAt_inj (i k : nat) : moduleIdAt i = moduleIdAt k -> i = k.
Proof.
  unfold moduleIdAt; intros H.
  apply app_inv_head, JSFacts.ofNumber_inj in H; lia.
Qed.

Lemma iterationIdAt_inj (i k : nat) :
  iterationIdAt i = iterationIdAt k -> i = k.
Proof.
  unfold iterationIdAt; intros H.
  apply app_inv_head, JSFacts.ofNumber_inj in H; lia.
Qed.

Lemma NoDup_map_injective (A B : Type) (f : A -> B) (l : list A) :
  (forall x y, f x = f y -> x = y) -> NoDup l -> NoDup (map f l).
Proof.
  intros Hinj; induction 1 as [|x l Hx Hl IH]; simpl; constructor; auto.
  intros Hin; apply in_map_iff in Hin as (y & Hy & Hyl).
  apply Hinj in Hy; subst; contradiction.
Qed.

Lemma iterationsNumbered_NoDup (its : list Iter) :
  iterationsNumbered its -> NoDup (map I.id its).
Proof.
  intros H; rewrite H.
  apply NoDup_map_injective; [exact iterationIdAt_inj|apply seq_NoDup].
Qed.

Lemma nth_error_numbered (A : Type) (f : nat -> A) (n i : nat) (x : A) :
  nth_error (map f (seq 0 n)) i = Some x -> x = f i.
Proof.
  rewrite nth_error_map, nth_error_seq.
  destruct (i <? n); simpl; congruence.
Qed.

Lemma numbered_initial : numbered Store.initialModules.
Proof.
  split; [reflexivity|].
  constructor; [reflexivity|constructor].
Qed.

Lemma numbered_unique (ms : list Mod) (m m' : Mod) :
  numbered ms -> In m ms -> In m' ms -> M.id m = M.id m' -> m = m'.
Proof.
  intros [Hids _] Hm Hm' E.
  apply In_nth_error in Hm as [i Hi]; apply In_nth_error in Hm' as [k Hk].
  pose proof (map_nth_error M.id _ _ Hi) as Hi'.
  pose proof (map_nth_error M.id _ _ Hk) as Hk'.
  rewrite Hids in Hi', Hk'.
  apply nth_error_numbered in Hi', Hk'.
  assert (i = k) by (apply moduleIdAt_inj; congruence).
  subst k; congruence.
Qed.

Lemma newIterationId_numbered (ms : list Mod) (m : Mod) :
  numbered ms -> In m ms ->
  Store.newIterationId ms (M.id m)
  = iterationIdAt (List.length (M.iterations m)).
Proof.
  intros Hnum Hm; unfold Store.newIterationId, Store.getNextIterationNumber.
  cbv zeta.
  destruct (find (fun x => JS.eqb (M.id x) (M.id m)) ms) as [m'|] eqn:F.
  - apply find_some in F as [Hm' E]; apply JSFacts.eqb_eq in E.
    rewrite (numbered_unique ms m' m Hnum Hm' Hm E); unfold option_map.
    now rewrite or_zero_Some.
  - apply (find_none _ _ F) in Hm; simpl in Hm.
    now rewrite JSFacts.eqb_refl in Hm.
Qed.

Lemma iterationsNumbered_map (h : Iter -> Iter) (its : list Iter) :
  (forall it, I.id (h it) = I.id it) ->
  iterationsNumbered its -> iterationsNumbered (map h its).
Proof.
  unfold iterationsNumbered; intros Hh H.
  rewrite map_map, length_map, <- H; apply map_ext; exact Hh.
Qed.

Lemma iterationsNumbered_snoc (its : list Iter) (it : Iter) :
  I.id it = iterationIdAt (List.length its) ->
  iterationsNumbered its -> iterationsNumbered (its ++ [it]).
Proof.
  unfold iterationsNumbered; intros Hit H.
  rewrite map_app, last_length, seq_S, map_app, H; simpl.
  now rewrite Hit.
Qed.

(** An updater that keeps the id of the modules it rewrites and the
    numbering of their iterations keeps the invariant. *)
Lemma numbered_update (g : Mod -> Mod) (moduleId : JS.str) (ms : list Mod) :
  (forall m, In m ms -> M.id m = moduleId ->
             iterationsNumbered (M.iterations m) ->
             M.id (g m) = M.id m /\ iterationsNumbered (M.iterations (g m))) ->
  numbered ms ->
  numbered (map (fun m => if JS.eqb (M.id m) moduleId then g m else m) ms).
Proof.
  intros Hg [Hids Hits]; rewrite Forall_forall in Hits; split.
  - rewrite length_map, <- Hids, map_map; apply map_ext_in; intros m Hm.
    destruct (JS.eqb (M.id m) moduleId) eqn:E; [|reflexivity].
    apply JSFacts.eqb_eq in E; apply (Hg m Hm E (Hits m Hm)).
  - apply Forall_map, Forall_forall; intros m Hm.
    destruct (JS.eqb (M.id m) moduleId) eqn:E; [|auto].
    apply JSFacts.eqb_eq in E; apply (Hg m Hm E (Hits m Hm)).
Qed.

Lemma numbered_addNewModule (ms : list Mod) :
  numbered ms -> numbered (Store.addNewModule ms).
Proof.
  intros [Hids Hits]; unfold Store.addNewModule; cbv zeta; split.
  - rewrite map_app, last_length, seq_S, map_app, Hids; reflexivity.
  - apply Forall_app; split; [exact Hits|].
    constructor; [reflexivity|constructor].
Qed.

Lemma numbered_apply (o : Op.t) (ms : list Mod) :
  Op.isRemoval o = false -> numbered ms -> numbered (Op.apply o ms).
Proof.
  intros Ho Hnum; destruct o; simpl in Ho; try discriminate; simpl.
  - now apply numbered_addNewModule.
  - apply numbered_update; auto.
  - apply numbered_update; auto.
  - apply numbered_update; auto.
  - apply numbered_update; [|exact Hnum].
    intros m _ _ Hm; split; [reflexivity|].
    simpl; apply iterationsNumbered_map; auto.
  - apply numbered_update; [|exact Hnum].
    intros m _ _ Hm; split; [reflexivity|].
    simpl; apply iterationsNumbered_map; [|exact Hm].
    intros it; destruct (JS.eqb (I.id it) iterationId); reflexivity.
  - apply numbered_update; [|exact Hnum].
    intros m Hin E Hm; split; [reflexivity|].
    simpl; apply iterationsNumbered_snoc; [|exact Hm].
    simpl; rewrite <- E; now apply newIterationId_numbered.
  - apply numbered_update; [|exact Hnum].
    intros m _ _ Hm; split; [reflexivity|].
    simpl; apply iterationsNumbered_map; [|exact Hm].
    intros it; destruct (JS.eqb (I.id it) iterationId); reflexivity.
Qed.

Lemma numbered_run (history : list Op.t) (ms : list Mod) :
  forallb (fun o => negb (Op.isRemoval o)) history = true ->
  numbered ms -> numbered (Op.run history ms).
Proof.
  revert ms; induction history as [|o history IH]; simpl; intros ms H Hnum;
    [exact Hnum|].
  apply andb_true_iff in H as [Ho Hrest].
  apply IH; [exact Hrest|].
  apply numbered_apply; [|exact Hnum].
  now apply negb_true_iff.
Qed.

End Numbering.

(** ** The page component performs store operations *)

Module AppFacts.

Lemma step_modules (e : App.Event) (st : App.State) :
  App.modules (App.step e st)
  = match App.opOf e st with
    | Some o => Op.apply o (App.modules st)
    | None => App.modules st
    end.
Proof.
  destruct e; simpl; try reflexivity.
  unfold App.timeout; destruct (App.scheduled st); reflexivity.
Qed.

Lemma opOf_isRemoval (e : App.Event) (st : App.State) (o : Op.t) :
  App.isRemoval e = false -> App.opOf e st = Some o -> Op.isRemoval o = false.
Proof.
  destruct e; simpl; try discriminate; intros _ H;
    try (injection H as <-; reflexivity).
  destruct (App.scheduled st); [discriminate|injection H as <-; reflexivity].
Qed.

(** A property of collections that store operations keep is kept by the
    events of the page. *)
Lemma steps_invariant (P : list Mod -> Prop) (allowed : App.Event -> bool)
  (allowedOp : Op.t -> bool) :
  (forall e st o, allowed e = true -> App.opOf e st = Some o ->
                  allowedOp o = true) ->
  (forall o ms, allowedOp o = true -> P ms -> P (Op.apply o ms)) ->
  forall (es : list App.Event) (st : App.State),
    forallb allowed es = true ->
    P (App.modules st) -> P (App.modules (App.steps es st)).
Proof.
  intros Hop HP es; induction es as [|e es IH]; simpl; intros st H Hst;
    [exact Hst|].
  apply andb_true_iff in H as [He Hes].
  apply IH; [exact Hes|].
  rewrite step_modules.
  destruct (App.opOf e st) as [o|] eqn:E; [|exact Hst].
  apply HP; [|exact Hst].
  exact (Hop e st o He E).
Qed.

End AppFacts.

(** C9: the history [addAddRemoveAdd] (two additions, the removal of the
    earlier iteration, one more addition) leaves the module with two
    different iterations, at positions 0 and 1, that have the same id
    "EM-2"; the same holds without the completions.  Along every history of
    store operations without a removal, and every sequence of events of the
    page without a removal, that starts from the initial collection, the
    ids of the iterations of each module are pairwise different. *)
Theorem duplicate_id_needs_removal :
  (exists (m : Mod) (it1 it2 : Iter),
      nth_error afterAddAddRemoveAdd 0 = Some m /\
      nth_error (M.iterations m) 0 = Some it1 /\
      nth_error (M.iterations m) 1 = Some it2 /\
      it1 <> it2 /\
      I.id it1 = JS.utf16 "EM-2" /\ I.id it2 = JS.utf16 "EM-2") /\
  map (fun m => map I.id (M.iterations m))
    (Op.run
       [ Op.beginAddIteration (JS.utf16 "em-1");
         Op.beginAddIteration (JS.utf16 "em-1");
         Op.removeIteration (JS.utf16 "em-1") (JS.utf16 "EM-1");
         Op.beginAddIteration (JS.utf16 "em-1") ]
       Store.initialModules)
  = [[ JS.utf16 "EM-2"; JS.utf16 "EM-2" ]] /\
  (forall history : list Op.t,
      forallb (fun o => negb (Op.isRemoval o)) history = true ->
      forall m : Mod,
        In m (Op.run history Store.initialModules) ->
        NoDup (map I.id (M.iterations m))) /\
  (forall events : list App.Event,
      forallb (fun e => negb (App.isRemoval e)) events = true ->
      forall m : Mod,
        In m (App.modules (App.steps events App.initial)) ->
        NoDup (map I.id (M.iterations m))).
Proof.
  split; [|split; [vm_compute; reflexivity|split]].
  - exists (M.mk (JS.utf16 "em-1") (JS.utf16 "Experiment Module") false false
              [ I.mk (JS.utf16 "EM-2") (JS.utf16 "Second") false completed;
                I.mk (JS.utf16 "EM-2") (JS.utf16 "Adding iteration...")
                  false adding ]),
      (I.mk (JS.utf16 "EM-2") (JS.utf16 "Second") false completed),
      (I.mk (JS.utf16 "EM-2") (JS.utf16 "Adding iteration...") false adding).
    split; [vm_compute; reflexivity|].
    split; [reflexivity|]; split; [reflexivity|].
    split; [discriminate|split; reflexivity].
  - intros history H m Hm.
    pose proof (Numbering.numbered_run history _ H Numbering.numbered_initial)
      as [_ Hits].
    rewrite Forall_forall in Hits.
    apply Numbering.iterationsNumbered_NoDup; auto.
  - intros events H m Hm.
    assert (Hnum : numbered
                     (App.modules (App.steps events App.initial))).
    { apply (@AppFacts.steps_invariant numbered
               (fun e => negb (App.isRemoval e))
               (fun o => negb (Op.isRemoval o))).
      - intros e st o He Ho; apply negb_true_iff in He; apply negb_true_iff.
        exact (AppFacts.opOf_isRemoval e st o He Ho).
      - intros o ms Ho; apply negb_true_iff in Ho.
        now apply Numbering.numbered_apply.
      - exact H.
      - exact Numbering.numbered_initial. }
    destruct Hnum as [_ Hits]; rewrite Forall_forall in Hits.
    apply Numbering.iterationsNumbered_NoDup; auto.
Qed.

Lemma duplicate_id_needs_removal_witness :
  NoDup
    (map I.id
       (M.iterations
          (nth 0
             (Op.run
                [ Op.beginAddIteration (JS.utf16 "em-1");
                  Op.createModule;
                  Op.beginAddIteration (JS.utf16 "em-1");
                  Op.toggleLock (JS.utf16 "em-1");
                  Op.beginAddIteration (JS.utf16 "em-1") ]
                Store.initialModules)
             (M.mk [] [] false false [])))).
Proof.
  destruct duplicate_id_needs_removal as (_ & _ & Hhist & _).
  apply (Hhist
           [ Op.beginAddIteration (JS.utf16 "em-1");
             Op.createModule;
             Op.beginAddIteration (JS.utf16 "em-1");
             Op.toggleLock (JS.utf16 "em-1");
             Op.beginAddIteration (JS.utf16 "em-1") ]
           eq_refl).
  left; reflexivity.
Defined.

(** ** Titles *)

Module Titles.

Lemma titled_initial : titled Store.initialModules.
Proof. intros m it [<-|[]] []. Qed.

Lemma titled_update (g : Mod -> Mod) (moduleId : JS.str) (ms : list Mod) :
  (forall m, In m ms ->
             (forall it, In it (M.iterations m) -> I.title it <> []) ->
             forall it, In it (M.iterations (g m)) -> I.title it <> []) ->
  titled ms ->
  titled (map (fun m => if JS.eqb (M.id m) moduleId then g m else m) ms).
Proof.
  intros Hg Ht m' it Hm' Hit.
  apply in_map_iff in Hm' as (m & <- & Hm).
  destruct (JS.eqb (M.id m) moduleId).
  - exact (Hg m Hm (fun x => Ht m x Hm) it Hit).
  - exact (Ht m it Hm Hit).
Qed.

Lemma titled_apply (o : Op.t) (ms : list Mod) :
  titled ms -> titled (Op.apply o ms).
Proof.
  intros Ht; destruct o; simpl.
  - intros m it Hm Hit; unfold Store.addNewModule in Hm.
    apply in_app_or in Hm as [Hm|[<-|[]]]; [exact (Ht m it Hm Hit)|].
    destruct Hit.
  - apply titled_update; auto.
  - apply titled_update; auto.
  - apply titled_update; auto.
  - apply titled_update; [|exact Ht]; intros m _ Hm it Hit; simpl in Hit.
    apply in_map_iff in Hit as (x & <- & Hx); simpl; auto.
  - apply titled_update; [|exact Ht]; intros m _ Hm it Hit; simpl in Hit.
    apply in_map_iff in Hit as (x & <- & Hx).
    destruct (JS.eqb (I.id x) iterationId); simpl; auto.
  - apply titled_update; [|exact Ht]; intros m _ Hm it Hit; simpl in Hit.
    apply in_app_or in Hit as [Hit|[<-|[]]]; [auto|discriminate].
  - apply titled_update; [|exact Ht]; intros m _ Hm it Hit; simpl in Hit.
    apply in_map_iff in Hit as (x & <- & Hx).
    destruct (JS.eqb (I.id x) iterationId); simpl; auto.
    apply JSFacts.or_str_nonempty; discriminate.
  - apply titled_update; [|exact Ht]; intros m _ Hm it Hit; simpl in Hit.
    apply filter_In in Hit as [Hit _]; auto.
Qed.

Lemma titled_run (history : list Op.t) (ms : list Mod) :
  titled ms -> titled (Op.run history ms).
Proof.
  revert ms; induction history as [|o history IH]; simpl; intros ms Ht;
    [exact Ht|].
  apply IH, titled_apply, Ht.
Qed.

End Titles.

(** C10: the completion gives the title "Iteration title" to the iteration
    it completes when no title is passed and when the title passed is the
    empty string; [handleSubmit] of the add dialog passes no title when the
    text typed consists of white space only, and never passes the empty
    string; the title of an iteration just completed is not empty, and in
    every collection reached from the initial one by store operations, or
    by events of the page, no iteration has an empty title. *)
Theorem completed_title_never_empty :
  (forall (prev : list Mod) (moduleId iterationId : JS.str)
          (prompt : option JS.str) (i j : nat) (m : Mod) (it : Iter),
      nth_error prev i = Some m ->
      M.id m = moduleId ->
      nth_error (M.iterations m) j = Some it ->
      I.id it = iterationId ->
      (prompt = None \/ prompt = Some [] ->
       completedWithTitle
         (Store.addIterationCompleted moduleId iterationId prompt prev) i j
         (JS.utf16 "Iteration title")) /\
      exists title : JS.str,
        completedWithTitle
          (Store.addIterationCompleted moduleId iterationId prompt prev) i j
          title /\
        title <> []) /\
  (forall (showPromptInput : bool) (prompt : JS.str),
      (forallb JS.isWhiteSpace prompt = true ->
       handleSubmit showPromptInput prompt = None) /\
      handleSubmit showPromptInput prompt <> Some []) /\
  (forall (history : list Op.t) (m : Mod) (it : Iter),
      In m (Op.run history Store.initialModules) ->
      In it (M.iterations m) ->
      I.title it <> []) /\
  (forall (events : list App.Event) (m : Mod) (it : Iter),
      In m (App.modules (App.steps events App.initial)) ->
      In it (M.iterations m) ->
      I.title it <> []).
Proof.
  split; [|split; [|split]].
  - intros prev moduleId iterationId prompt i j m it Hi Hm Hj Hit.
    destruct (addIterationCompleted_present prev moduleId iterationId prompt
                i j m it Hi Hm Hj Hit)
      as (m' & it' & Hm' & Hit' & Hst & Htt & _).
    split.
    + intros Hprompt; exists m', it'.
      repeat (split; [assumption|]).
      rewrite Htt; destruct Hprompt as [->| ->]; reflexivity.
    + exists (JS.or_str prompt (JS.utf16 "Iteration title")); split.
      * exists m', it'; auto.
      * apply JSFacts.or_str_nonempty; discriminate.
  - intros showPromptInput prompt; unfold handleSubmit; split.
    + intros Hws; rewrite (JSFacts.trim_whitespace prompt Hws).
      destruct showPromptInput; reflexivity.
    + destruct showPromptInput; [|discriminate].
      destruct (JS.trim prompt); discriminate.
  - intros history m it.
    apply (Titles.titled_run history _ Titles.titled_initial).
  - intros events m it.
    apply (@AppFacts.steps_invariant titled (fun _ => true)
             (fun _ => true)); auto.
    + intros o ms _; apply Titles.titled_apply.
    + clear; induction events; simpl; auto.
    + exact Titles.titled_initial.
Qed.

Lemma completed_title_never_empty_witness :
  completedWithTitle
    (Store.addIterationCompleted (JS.utf16 "em-1") (JS.utf16 "EM-1")
       (Some []) oneAdding) 0 0 (JS.utf16 "Iteration title") /\
  handleSubmit true (JS.utf16 "   ") = None.
Proof.
  destruct completed_title_never_empty as (Hfallback & Hsubmit & _).
  split.
  - apply (Hfallback oneAdding (JS.utf16 "em-1") (JS.utf16 "EM-1") (Some [])
             0 0 _ _ eq_refl eq_refl eq_refl eq_refl).
    right; reflexivity.
  - apply (Hsubmit true (JS.utf16 "   ")); reflexivity.
Defined.

(** * Further properties of the store *)

(** ** Expanding and hard locking *)

(** X1: [handleToggleExpand] flips [isExpanded] of the modules named by the id,
    locked or not, and nothing else; modules with another id are returned
    as they are; applied twice it gives back the collection. *)
Theorem toggleExpand_flips_named_only :
  forall (prev : list Mod) (moduleId : JS.str),
    Store.handleToggleExpand moduleId (Store.handleToggleExpand moduleId prev)
    = prev /\
    (forall (i : nat) (m : Mod),
        nth_error prev i = Some m ->
        exists m' : Mod,
          nth_error (Store.handleToggleExpand moduleId prev) i = Some m' /\
          M.id m' = M.id m /\ M.title m' = M.title m /\
          M.isLocked m' = M.isLocked m /\
          M.iterations m' = M.iterations m /\
          (M.id m = moduleId -> M.isExpanded m' = negb (M.isExpanded m)) /\
          (M.id m <> moduleId -> m' = m)).
Proof.
  intros prev moduleId; split.
  - unfold Store.handleToggleExpand; apply map_involutive.
    intros [mid mt lk ex its]; simpl.
    destruct (JS.eqb mid moduleId) eqn:E; simpl; rewrite ?E; [|reflexivity].
    now rewrite negb_involutive.
  - intros i m Hi; eexists; unfold Store.handleToggleExpand.
    split; [rewrite nth_error_map, Hi; reflexivity|].
    destruct (JS.eqb (M.id m) moduleId) eqn:E; simpl.
    + apply JSFacts.eqb_eq in E.
      do 4 (split; [reflexivity|]).
      split; [reflexivity|intros Hne; contradiction].
    + apply JSFacts.eqb_neq in E.
      do 4 (split; [reflexivity|]).
      split; [intros Heq; contradiction|reflexivity].
Qed.

Lemma toggleExpand_flips_named_only_witness :
  exists m' : Mod,
    nth_error
      (Store.handleToggleExpand (JS.utf16 "em-1")
         [M.mk (JS.utf16 "em-1") (JS.utf16 "Experiment Module") true false []])
      0 = Some m' /\
    M.isExpanded m' = true /\ M.isLocked m' = true.
Proof.
  destruct
    (proj2
       (toggleExpand_flips_named_only
          [M.mk (JS.utf16 "em-1") (JS.utf16 "Experiment Module") true false []]
          (JS.utf16 "em-1")) 0 _ eq_refl)
    as (m' & Hm' & _ & _ & Hl & _ & Hex & _).
  exists m'; split; [exact Hm'|]; split; [exact (Hex eq_refl)|exact Hl].
Defined.

(** X2: [handleLockModule] leaves the named modules locked and collapsed
    whatever they were and changes nothing else; it is idempotent, it
    absorbs a [handleToggleLock] or a [handleToggleExpand] of the same
    module done just before, and on modules that are unlocked it does what
    [handleToggleLock] does. *)
Theorem lockModule_locks_and_collapses :
  forall (prev : list Mod) (moduleId : JS.str),
    (forall (i : nat) (m : Mod),
        nth_error prev i = Some m ->
        exists m' : Mod,
          nth_error (Store.handleLockModule moduleId prev) i = Some m' /\
          M.id m' = M.id m /\ M.title m' = M.title m /\
          M.iterations m' = M.iterations m /\
          (M.id m = moduleId ->
           M.isLocked m' = true /\ M.isExpanded m' = false) /\
          (M.id m <> moduleId -> m' = m)) /\
    Store.handleLockModule moduleId (Store.handleLockModule moduleId prev)
    = Store.handleLockModule moduleId prev /\
    Store.handleLockModule moduleId (Store.handleToggleLock moduleId prev)
    = Store.handleLockModule moduleId prev /\
    Store.handleLockModule moduleId (Store.handleToggleExpand moduleId prev)
    = Store.handleLockModule moduleId prev /\
    ((forall m : Mod,
         In m prev -> M.id m = moduleId -> M.isLocked m = false) ->
     Store.handleToggleLock moduleId prev
     = Store.handleLockModule moduleId prev).
Proof.
  intros prev moduleId; split; [|split; [|split; [|split]]].
  - intros i m Hi; eexists; unfold Store.handleLockModule.
    split; [rewrite nth_error_map, Hi; reflexivity|].
    destruct (JS.eqb (M.id m) moduleId) eqn:E; simpl.
    + apply JSFacts.eqb_eq in E.
      do 3 (split; [reflexivity|]).
      split; [intros _; split; reflexivity|intros Hne; contradiction].
    + apply JSFacts.eqb_neq in E.
      do 3 (split; [reflexivity|]).
      split; [intros Heq; contradiction|reflexivity].
  - unfold Store.handleLockModule; apply map_idempotent.
    intros [mid mt lk ex its]; simpl.
    destruct (JS.eqb mid moduleId) eqn:E; simpl; rewrite ?E; reflexivity.
  - unfold Store.handleLockModule, Store.handleToggleLock.
    rewrite map_map; apply map_ext; intros [mid mt lk ex its]; simpl.
    destruct (JS.eqb mid moduleId) eqn:E; simpl; rewrite ?E; reflexivity.
  - unfold Store.handleLockModule, Store.handleToggleExpand.
    rewrite map_map; apply map_ext; intros [mid mt lk ex its]; simpl.
    destruct (JS.eqb mid moduleId) eqn:E; simpl; rewrite ?E; reflexivity.
  - intros Hunlocked; unfold Store.handleLockModule, Store.handleToggleLock.
    apply map_ext_in; intros m Hm.
    destruct (JS.eqb (M.id m) moduleId) eqn:E; [|reflexivity].
    apply JSFacts.eqb_eq in E; now rewrite (Hunlocked m Hm E).
Qed.

Lemma lockModule_locks_and_collapses_witness :
  Store.handleToggleLock (JS.utf16 "em-1")
    [M.mk (JS.utf16 "em-1") (JS.utf16 "Experiment Module") false true []]
  = Store.handleLockModule (JS.utf16 "em-1")
      [M.mk (JS.utf16 "em-1") (JS.utf16 "Experiment Module") false true []].
Proof.
  refine
    (proj2 (proj2 (proj2 (proj2
       (lockModule_locks_and_collapses
          [M.mk (JS.utf16 "em-1") (JS.utf16 "Experiment Module")
             false true []]
          (JS.utf16 "em-1"))))) _).
  intros m [<-|[]] _; reflexivity.
Defined.

(** ** Modules keep their place *)

Ltac unfold_store :=
  unfold Store.addNewModule, Store.handleToggleExpand,
    Store.handleToggleLock, Store.handleLockModule,
    Store.handleResetModule, Store.handleToggleSelection,
    Store.addIterationAdding, Store.addIterationCompleted,
    Store.handleRemoveIteration.

Lemma apply_module_ids (o : Op.t) (ms : list Mod) :
  map M.id (Op.apply o ms)
  = map M.id ms ++
    match o with
    | Op.createModule => [moduleIdAt (List.length ms)]
    | _ => []
    end.
Proof.
  destruct o; simpl; unfold_store;
    try (rewrite app_nil_r, map_map; apply map_ext; intros m;
         destruct (JS.eqb (M.id m) moduleId); reflexivity).
  cbv zeta; now rewrite map_app.
Qed.

Lemma apply_module_titles (o : Op.t) (ms : list Mod) :
  map M.title (Op.apply o ms)
  = map M.title ms ++
    match o with
    | Op.createModule => [JS.utf16 "Experiment Module"]
    | _ => []
    end.
Proof.
  destruct o; simpl; unfold_store;
    try (rewrite app_nil_r, map_map; apply map_ext; intros m;
         destruct (JS.eqb (M.id m) moduleId); reflexivity).
  cbv zeta; now rewrite map_app.
Qed.

Lemma module_ids_apply (o : Op.t) (ms : list Mod) :
  map M.id ms = map moduleIdAt (seq 0 (List.length ms)) ->
  map M.id (Op.apply o ms)
  = map moduleIdAt (seq 0 (List.length (Op.apply o ms))).
Proof.
  intros H.
  rewrite <- (length_map M.id (Op.apply o ms)), apply_module_ids.
  destruct o; rewrite ?app_nil_r, ?length_map; try exact H.
  rewrite length_app, length_map; simpl List.length.
  rewrite Nat.add_1_r, seq_S, map_app, H; reflexivity.
Qed.

Lemma module_ids_run (history : list Op.t) (ms : list Mod) :
  map M.id ms = map moduleIdAt (seq 0 (List.length ms)) ->
  map M.id (Op.run history ms)
  = map moduleIdAt (seq 0 (List.length (Op.run history ms))).
Proof.
  revert ms; induction history as [|o history IH]; simpl; intros ms H;
    [exact H|].
  apply IH, module_ids_apply, H.
Qed.

Lemma sequential_ids_fresh (ms : list Mod) :
  map M.id ms = map moduleIdAt (seq 0 (List.length ms)) ->
  NoDup (map M.id ms) /\
  ~ In (JS.utf16 "em-" ++ JS.ofNumber (List.length ms + 1)) (map M.id ms).
Proof.
  intros H; rewrite H; split.
  - apply Numbering.NoDup_map_injective;
      [exact Numbering.moduleIdAt_inj|apply seq_NoDup].
  - intros Hin; apply in_map_iff in Hin as (k & Hk & Hin).
    apply (Numbering.moduleIdAt_inj k (List.length ms)) in Hk.
    apply in_seq in Hin; lia.
Qed.

(** X3: No operation changes the id, the title or the position of a module
    that exists; [createModule] appends one module whose id is "em-"
    followed by the number of modules plus one.  In every collection
    reached from the initial one, by store operations or by events of the
    page, the module at position [i] has the id "em-(i+1)", so module ids
    are pairwise different and the id the next [addNewModule] gives is not
    in use. *)
Theorem module_ids_are_sequential :
  (forall (o : Op.t) (ms : list Mod),
      map M.id (Op.apply o ms)
      = map M.id ms ++
        match o with
        | Op.createModule =>
            [JS.utf16 "em-" ++ JS.ofNumber (List.length ms + 1)]
        | _ => []
        end /\
      map M.title (Op.apply o ms)
      = map M.title ms ++
        match o with
        | Op.createModule => [JS.utf16 "Experiment Module"]
        | _ => []
        end) /\
  (forall history : list Op.t,
      map M.id (Op.run history Store.initialModules)
      = map (fun i => JS.utf16 "em-" ++ JS.ofNumber (i + 1))
          (seq 0 (List.length (Op.run history Store.initialModules))) /\
      NoDup (map M.id (Op.run history Store.initialModules)) /\
      ~ In (JS.utf16 "em-"
            ++ JS.ofNumber
                 (List.length (Op.run history Store.initialModules) + 1))
          (map M.id (Op.run history Store.initialModules))) /\
  (forall events : list App.Event,
      map M.id (App.modules (App.steps events App.initial))
      = map (fun i => JS.utf16 "em-" ++ JS.ofNumber (i + 1))
          (seq 0
             (List.length (App.modules (App.steps events App.initial)))) /\
      NoDup (map M.id (App.modules (App.steps events App.initial))) /\
      ~ In (JS.utf16 "em-"
            ++ JS.ofNumber
                 (List.length (App.modules (App.steps events App.initial))
                  + 1))
          (map M.id (App.modules (App.steps events App.initial)))).
Proof.
  split; [|split].
  - intros o ms; split;
      [exact (apply_module_ids o ms)|exact (apply_module_titles o ms)].
  - intros history.
    assert (H : map M.id (Op.run history Store.initialModules)
                = map moduleIdAt
                    (seq 0
                       (List.length (Op.run history Store.initialModules)))).
    { apply module_ids_run; reflexivity. }
    split; [exact H|exact (sequential_ids_fresh _ H)].
  - intros events.
    assert (H : map M.id (App.modules (App.steps events App.initial))
                = map moduleIdAt
                    (seq 0
                       (List.length
                          (App.modules (App.steps events App.initial))))).
    { apply (AppFacts.steps_invariant
               (fun ms => map M.id ms
                          = map moduleIdAt (seq 0 (List.length ms)))
               (fun _ => true) (fun _ => true)); auto.
      - intros o ms _; apply module_ids_apply.
      - clear; induction events; simpl; auto. }
    split; [exact H|exact (sequential_ids_fresh _ H)].
Qed.

(** ** Statuses *)

Lemma allIterations_update (P : Iter -> Prop) (g : Mod -> Mod)
  (moduleId : JS.str) (ms : list Mod) :
  (forall m, In m ms ->
             (forall it, In it (M.iterations m) -> P it) ->
             forall it, In it (M.iterations (g m)) -> P it) ->
  allIterations P ms ->
  allIterations P
    (map (fun m => if JS.eqb (M.id m) moduleId then g m else m) ms).
Proof.
  intros Hg Ht m' it Hm' Hit.
  apply in_map_iff in Hm' as (m & <- & Hm).
  destruct (JS.eqb (M.id m) moduleId).
  - exact (Hg m Hm (fun x => Ht m x Hm) it Hit).
  - exact (Ht m it Hm Hit).
Qed.

(** A property of iterations that the appended iteration has, and that
    selection, reset and completion keep, holds of every collection the
    operations produce from a collection where it holds. *)
Lemma allIterations_apply (P : Iter -> Prop) :
  (forall i, P (I.mk i (JS.utf16 "Adding iteration...") false adding)) ->
  (forall it b, P it -> P (I.mk (I.id it) (I.title it) b (I.status it))) ->
  (forall it t, P it -> P (I.mk (I.id it) t (I.isSelected it) completed)) ->
  forall (o : Op.t) (ms : list Mod),
    allIterations P ms -> allIterations P (Op.apply o ms).
Proof.
  intros Hadd Hsel Hdone o ms Ht; destruct o; simpl.
  - intros m it Hm Hit; unfold Store.addNewModule in Hm.
    apply in_app_or in Hm as [Hm|[<-|[]]]; [exact (Ht m it Hm Hit)|].
    destruct Hit.
  - apply allIterations_update; auto.
  - apply allIterations_update; auto.
  - apply allIterations_update; auto.
  - apply allIterations_update; [|exact Ht]; intros m _ Hm it Hit.
    simpl in Hit; apply in_map_iff in Hit as (x & <- & Hx); auto.
  - apply allIterations_update; [|exact Ht]; intros m _ Hm it Hit.
    simpl in Hit; apply in_map_iff in Hit as (x & <- & Hx).
    destruct (JS.eqb (I.id x) iterationId); auto.
  - apply allIterations_update; [|exact Ht]; intros m _ Hm it Hit.
    simpl in Hit; apply in_app_or in Hit as [Hit|[<-|[]]]; auto.
  - apply allIterations_update; [|exact Ht]; intros m _ Hm it Hit.
    simpl in Hit; apply in_map_iff in Hit as (x & <- & Hx).
    destruct (JS.eqb (I.id x) iterationId); auto.
  - apply allIterations_update; [|exact Ht]; intros m _ Hm it Hit.
    simpl in Hit; apply filter_In in Hit as [Hit _]; auto.
Qed.

Lemma allIterations_run (P : Iter -> Prop) :
  (forall o ms, allIterations P ms -> allIterations P (Op.apply o ms)) ->
  forall (history : list Op.t) (ms : list Mod),
    allIterations P ms -> allIterations P (Op.run history ms).
Proof.
  intros HP history; induction history as [|o history IH]; simpl;
    intros ms H; [exact H|].
  apply IH, HP, H.
Qed.

Lemma allIterations_steps (P : Iter -> Prop) :
  (forall o ms, allIterations P ms -> allIterations P (Op.apply o ms)) ->
  forall (events : list App.Event) (st : App.State),
    allIterations P (App.modules st) ->
    allIterations P (App.modules (App.steps events st)).
Proof.
  intros HP events st H.
  apply (AppFacts.steps_invariant (allIterations P)
           (fun _ => true) (fun _ => true)); auto.
  clear; induction events; simpl; auto.
Qed.

(** X4: No operation produces the status [draft]: in every collection reached
    from the initial one, by store operations or by events of the page,
    every iteration is in status [adding] or [completed]. *)
Theorem draft_is_never_reached :
  (forall (history : list Op.t) (m : Mod) (it : Iter),
      In m (Op.run history Store.initialModules) ->
      In it (M.iterations m) ->
      I.status it = adding \/ I.status it = completed) /\
  (forall (events : list App.Event) (m : Mod) (it : Iter),
      In m (App.modules (App.steps events App.initial)) ->
      In it (M.iterations m) ->
      I.status it = adding \/ I.status it = completed).
Proof.
  assert (HP : forall o ms,
             allIterations
               (fun it => I.status it = adding \/ I.status it = completed) ms ->
             allIterations
               (fun it => I.status it = adding \/ I.status it = completed)
               (Op.apply o ms)).
  { apply allIterations_apply; simpl; auto. }
  split.
  - intros history; apply (allIterations_run _ HP history).
    intros m it [<-|[]] [].
  - intros events; apply (allIterations_steps _ HP events).
    intros m it [<-|[]] [].
Qed.

Lemma draft_is_never_reached_witness :
  I.status (I.mk (JS.utf16 "EM-2") (JS.utf16 "Adding iteration...")
              false adding) = adding \/
  I.status (I.mk (JS.utf16 "EM-2") (JS.utf16 "Adding iteration...")
              false adding) = completed.
Proof.
  apply (proj1 draft_is_never_reached addAddRemoveAdd
           (M.mk (JS.utf16 "em-1") (JS.utf16 "Experiment Module") false false
              [ I.mk (JS.utf16 "EM-2") (JS.utf16 "Second") false completed;
                I.mk (JS.utf16 "EM-2") (JS.utf16 "Adding iteration...")
                  false adding ])).
  - vm_compute; left; reflexivity.
  - right; left; reflexivity.
Defined.

(** ** Operations on different modules *)

Lemma find_update (h : Mod -> Mod) (a : JS.str) (ms : list Mod) :
  (forall m, M.id (h m) = M.id m) ->
  (forall m, M.id m = a -> h m = m) ->
  find (fun x => JS.eqb (M.id x) a) (map h ms)
  = find (fun x => JS.eqb (M.id x) a) ms.
Proof.
  intros Hid Hfix; induction ms as [|m ms IH]; simpl; [reflexivity|].
  rewrite Hid; destruct (JS.eqb (M.id m) a) eqn:E; [|exact IH].
  apply JSFacts.eqb_eq in E; now rewrite (Hfix m E).
Qed.

(** An operation on the module [a] rewrites the modules named [a] by a
    function that keeps their id and that depends on the collection only
    through the first module named [a]. *)
Lemma apply_as_update (o : Op.t) (a : JS.str) :
  Op.moduleIdOf o = Some a ->
  exists g : option Mod -> Mod -> Mod,
    (forall ms,
        Op.apply o ms
        = map (fun m =>
                 if JS.eqb (M.id m) a
                 then g (find (fun x => JS.eqb (M.id x) a) ms) m
                 else m) ms) /\
    (forall f m, M.id (g f m) = M.id m).
Proof.
  intros Ho; destruct o; simpl in Ho; try discriminate; injection Ho as ->;
    simpl; unfold_store;
    unfold Store.newIterationId, Store.getNextIterationNumber.
  - exists (fun _ m =>
              M.mk (M.id m) (M.title m) (M.isLocked m)
                (negb (M.isExpanded m)) (M.iterations m)).
    split; reflexivity.
  - exists (fun _ m =>
              M.mk (M.id m) (M.title m) (negb (M.isLocked m))
                (if M.isLocked m then M.isExpanded m else false)
                (M.iterations m)).
    split; reflexivity.
  - exists (fun _ m =>
              M.mk (M.id m) (M.title m) true false (M.iterations m)).
    split; reflexivity.
  - exists (fun _ m =>
              M.mk (M.id m) (M.title m) (M.isLocked m) (M.isExpanded m)
                (map (fun it =>
                        I.mk (I.id it) (I.title it) false (I.status it))
                   (M.iterations m))).
    split; reflexivity.
  - exists (fun _ m =>
              M.mk (M.id m) (M.title m) (M.isLocked m) (M.isExpanded m)
                (map (fun it =>
                        if JS.eqb (I.id it) iterationId
                        then I.mk (I.id it) (I.title it)
                               (negb (I.isSelected it)) (I.status it)
                        else it)
                   (M.iterations m))).
    split; reflexivity.
  - exists (fun f m =>
              M.mk (M.id m) (M.title m) (M.isLocked m) (M.isExpanded m)
                (M.iterations m ++
                 [ I.mk
                     (JS.utf16 "EM-" ++
                      JS.ofNumber
                        (JS.or_zero
                           (option_map
                              (fun x => List.length (M.iterations x)) f)
                         + 1))
                     (JS.utf16 "Adding iteration...") false adding ])).
    split; reflexivity.
  - exists (fun _ m =>
              M.mk (M.id m) (M.title m) (M.isLocked m) (M.isExpanded m)
                (map (fun it =>
                        if JS.eqb (I.id it) iterationId
                        then I.mk (I.id it)
                               (JS.or_str title (JS.utf16 "Iteration title"))
                               (I.isSelected it) completed
                        else it)
                   (M.iterations m))).
    split; reflexivity.
  - exists (fun _ m =>
              M.mk (M.id m) (M.title m) (M.isLocked m) (M.isExpanded m)
                (filter (fun it => negb (JS.eqb (I.id it) iterationId))
                   (M.iterations m))).
    split; reflexivity.
Qed.

(** X5: Two operations invoked with different module ids commute: the
    collection they produce does not depend on their order. *)
Theorem operations_on_different_modules_commute :
  forall (o1 o2 : Op.t) (a b : JS.str) (ms : list Mod),
    Op.moduleIdOf o1 = Some a ->
    Op.moduleIdOf o2 = Some b ->
    a <> b ->
    Op.apply o1 (Op.apply o2 ms) = Op.apply o2 (Op.apply o1 ms).
Proof.
  intros o1 o2 a b ms H1 H2 Hab.
  destruct (apply_as_update o1 a H1) as (g1 & E1 & Hid1).
  destruct (apply_as_update o2 b H2) as (g2 & E2 & Hid2).
  assert (Hfind : forall (g : option Mod -> Mod -> Mod) (c d : JS.str) f,
             (forall f m, M.id (g f m) = M.id m) -> c <> d ->
             find (fun x => JS.eqb (M.id x) d)
                  (map (fun m => if JS.eqb (M.id m) c then g f m else m) ms)
             = find (fun x => JS.eqb (M.id x) d) ms).
  { intros g c d f Hg Hcd; apply find_update.
    - intros m; destruct (JS.eqb (M.id m) c); [apply Hg|reflexivity].
    - intros m Hm; destruct (JS.eqb (M.id m) c) eqn:E; [|reflexivity].
      apply JSFacts.eqb_eq in E; congruence. }
  rewrite (E1 (Op.apply o2 ms)), (E2 (Op.apply o1 ms)), (E1 ms), (E2 ms).
  rewrite (Hfind g2 b a _ Hid2 (not_eq_sym Hab)), (Hfind g1 a b _ Hid1 Hab).
  rewrite !map_map; apply map_ext; intros m; cbv beta.
  destruct (JS.eqb (M.id m) a) eqn:Ea, (JS.eqb (M.id m) b) eqn:Eb;
    rewrite ?Hid1, ?Hid2, ?Ea, ?Eb; try reflexivity.
  apply JSFacts.eqb_eq in Ea, Eb; congruence.
Qed.

Lemma operations_on_different_modules_commute_witness :
  Op.apply (Op.beginAddIteration (JS.utf16 "em-1"))
    (Op.apply (Op.toggleLock (JS.utf16 "em-2"))
       (Store.addNewModule Store.initialModules))
  = Op.apply (Op.toggleLock (JS.utf16 "em-2"))
      (Op.apply (Op.beginAddIteration (JS.utf16 "em-1"))
         (Store.addNewModule Store.initialModules)).
Proof.
  apply (operations_on_different_modules_commute
           (Op.beginAddIteration (JS.utf16 "em-1"))
           (Op.toggleLock (JS.utf16 "em-2"))
           (JS.utf16 "em-1") (JS.utf16 "em-2")
           (Store.addNewModule Store.initialModules) eq_refl eq_refl).
  discriminate.
Defined.

(** ** An addition and what follows it *)

Lemma numbered_newIterationId_absent (ms : list Mod) (a : JS.str) :
  numbered ms -> iterationAbsent a (Store.newIterationId ms a) ms.
Proof.
  intros Hnum m it Hm Ha Hit Hid; subst a.
  rewrite (Numbering.newIterationId_numbered ms m Hnum Hm) in Hid.
  destruct Hnum as [_ Hits]; rewrite Forall_forall in Hits.
  apply In_nth_error in Hit as [j Hj].
  pose proof (map_nth_error I.id _ _ Hj) as Hj'.
  rewrite (Hits m Hm) in Hj'.
  apply Numbering.nth_error_numbered in Hj'.
  rewrite Hid in Hj'; apply Numbering.iterationIdAt_inj in Hj'.
  assert (j < List.length (M.iterations m)); [|lia].
  apply nth_error_Some; congruence.
Qed.

(** X6: When no iteration of the named module has the id [i] yet, removing [i]
    right after the addition of [i] gives back the collection as it was
    before the addition.  The id [handleAddIterationComplete] computes is of
    that kind in every collection reached without a removal. *)
Theorem removal_cancels_addition :
  (forall (ms : list Mod) (a i : JS.str),
      iterationAbsent a i ms ->
      Store.handleRemoveIteration a i (Store.addIterationAdding a i ms) = ms)
  /\
  (forall (history : list Op.t) (a : JS.str),
      forallb (fun o => negb (Op.isRemoval o)) history = true ->
      Op.run
        [ Op.beginAddIteration a;
          Op.removeIteration a
            (Store.newIterationId (Op.run history Store.initialModules) a) ]
        (Op.run history Store.initialModules)
      = Op.run history Store.initialModules).
Proof.
  assert (Hgen : forall (ms : list Mod) (a i : JS.str),
             iterationAbsent a i ms ->
             Store.handleRemoveIteration a i (Store.addIterationAdding a i ms)
             = ms).
  { intros ms a i Habs; unfold_store; rewrite map_map.
    apply map_fixed; intros [mid mt lk ex its] Hm; simpl.
    destruct (JS.eqb mid a) eqn:E; simpl; rewrite ?E; [|reflexivity].
    apply JSFacts.eqb_eq in E; f_equal.
    rewrite filter_app; simpl; rewrite JSFacts.eqb_refl; simpl.
    rewrite app_nil_r; apply filter_keeps_all; intros it Hit.
    apply negb_true_iff, JSFacts.eqb_neq.
    exact (Habs _ it Hm E Hit). }
  split; [exact Hgen|].
  intros history a Hhist; unfold Op.run at 1; simpl.
  apply Hgen, numbered_newIterationId_absent.
  apply Numbering.numbered_run; [exact Hhist|exact Numbering.numbered_initial].
Qed.

Lemma removal_cancels_addition_witness :
  Store.handleRemoveIteration (JS.utf16 "em-1") (JS.utf16 "EM-2")
    (Store.addIterationAdding (JS.utf16 "em-1") (JS.utf16 "EM-2") oneAdding)
  = oneAdding.
Proof.
  apply (proj1 removal_cancels_addition oneAdding
           (JS.utf16 "em-1") (JS.utf16 "EM-2")).
  intros m it Hm _ Hit.
  vm_compute in Hm; destruct Hm as [<-|[]].
  vm_compute in Hit; destruct Hit as [<-|[]].
  vm_compute; discriminate.
Defined.

(** X7: When no iteration of the named module has the id [i] yet, the addition
    of [i] followed by its completion leaves every module with another id
    as it was and appends to the named module one iteration, completed,
    not selected, with the title [prompt || "Iteration title"]; the
    iterations the module had are not touched. *)
Theorem completion_touches_the_added_iteration_only :
  forall (ms : list Mod) (a i : JS.str) (prompt : option JS.str),
    iterationAbsent a i ms ->
    forall (k : nat) (m : Mod),
      nth_error ms k = Some m ->
      nth_error
        (Store.addIterationCompleted a i prompt
           (Store.addIterationAdding a i ms)) k
      = Some
          (if JS.eqb (M.id m) a
           then M.mk (M.id m) (M.title m) (M.isLocked m) (M.isExpanded m)
                  (M.iterations m ++
                   [ I.mk i (JS.or_str prompt (JS.utf16 "Iteration title"))
                       false completed ])
           else m).
Proof.
  intros ms a i prompt Habs k m Hk; unfold_store.
  rewrite map_map, nth_error_map, Hk; simpl; f_equal.
  destruct (JS.eqb (M.id m) a) eqn:E; simpl; rewrite ?E; [|reflexivity].
  apply JSFacts.eqb_eq in E; f_equal.
  rewrite map_app; simpl; rewrite JSFacts.eqb_refl; f_equal.
  apply map_fixed; intros it Hit.
  pose proof (Habs m it (nth_error_In _ _ Hk) E Hit) as Hne.
  apply JSFacts.eqb_neq in Hne; now rewrite Hne.
Qed.

Lemma completion_touches_the_added_iteration_only_witness :
  nth_error
    (Store.addIterationCompleted (JS.utf16 "em-1") (JS.utf16 "EM-2") None
       (Store.addIterationAdding (JS.utf16 "em-1") (JS.utf16 "EM-2")
          oneAdding)) 0
  = Some
      (M.mk (JS.utf16 "em-1") (JS.utf16 "Experiment Module") false false
         [ I.mk (JS.utf16 "EM-1") (JS.utf16 "Adding iteration...")
             false adding;
           I.mk (JS.utf16 "EM-2") (JS.utf16 "Iteration title")
             false completed ]).
Proof.
  refine
    (completion_touches_the_added_iteration_only oneAdding
       (JS.utf16 "em-1") (JS.utf16 "EM-2") None _ 0
       (M.mk (JS.utf16 "em-1") (JS.utf16 "Experiment Module") false false
          [ I.mk (JS.utf16 "EM-1") (JS.utf16 "Adding iteration...")
              false adding ]) _).
  - intros m it Hm _ Hit.
    vm_compute in Hm; destruct Hm as [<-|[]].
    vm_compute in Hit; destruct Hit as [<-|[]].
    vm_compute; discriminate.
  - vm_compute; reflexivity.
Defined.

(** ** Selection and reset *)

(** X8: [handleResetModule] absorbs a [handleToggleSelection] done just before
    in the same module; two [handleToggleSelection] in the same module
    commute; and [handleResetModule] commutes with the completion of an
    addition. *)
Theorem reset_absorbs_selection :
  forall (ms : list Mod) (a i j : JS.str) (prompt : option JS.str),
    Store.handleResetModule a (Store.handleToggleSelection a i ms)
    = Store.handleResetModule a ms /\
    Store.handleToggleSelection a i (Store.handleToggleSelection a j ms)
    = Store.handleToggleSelection a j (Store.handleToggleSelection a i ms) /\
    Store.handleResetModule a (Store.addIterationCompleted a i prompt ms)
    = Store.addIterationCompleted a i prompt (Store.handleResetModule a ms).
Proof.
  intros ms a i j prompt; split; [|split]; unfold_store;
    rewrite !map_map; apply map_ext; intros [mid mt lk ex its]; simpl;
    (destruct (JS.eqb mid a) eqn:E; simpl; rewrite ?E; [|reflexivity]);
    f_equal; rewrite !map_map; apply map_ext;
    intros [iid ttl sel stt]; simpl.
  - destruct (JS.eqb iid i); reflexivity.
  - destruct (JS.eqb iid i) eqn:Ei, (JS.eqb iid j) eqn:Ej; simpl;
      rewrite ?Ei, ?Ej; reflexivity.
  - destruct (JS.eqb iid i); reflexivity.
Qed.

(** ** The number shown by the add dialog *)

Module NumberFacts.

Lemma digits_of_uint (d : Decimal.uint) (acc : nat) :
  forallb JS.isDigit (JS.utf16 (NilEmpty.string_of_uint d)) = true /\
  forallb (fun c => negb (N.eqb c 45))
    (JS.utf16 (NilEmpty.string_of_uint d)) = true /\
  JS.digitsValue (N.of_nat acc) (JS.utf16 (NilEmpty.string_of_uint d))
  = N.of_nat (Nat.of_uint_acc d acc).
Proof.
  revert acc;
    induction d as [|d IH|d IH|d IH|d IH|d IH|d IH|d IH|d IH|d IH|d IH];
    intros acc; [repeat split| | | | | | | | | |];
    destruct (IH (10 * acc)) as (H1 & H2 & _);
    (split; [exact H1|split; [exact H2|]]);
    simpl NilEmpty.string_of_uint; unfold JS.utf16; simpl map;
    fold (JS.utf16 (NilEmpty.string_of_uint d));
    simpl JS.digitsValue; simpl Nat.of_uint_acc;
    rewrite Nat.tail_mul_spec.
  - destruct (IH (10 * acc)) as (_ & _ & <-); f_equal; lia.
  - destruct (IH (S (10 * acc))) as (_ & _ & <-); f_equal; lia.
  - destruct (IH (S (S (10 * acc)))) as (_ & _ & <-); f_equal; lia.
  - destruct (IH (S (S (S (10 * acc))))) as (_ & _ & <-); f_equal; lia.
  - destruct (IH (S (S (S (S (10 * acc)))))) as (_ & _ & <-); f_equal; lia.
  - destruct (IH (S (S (S (S (S (10 * acc))))))) as (_ & _ & <-);
      f_equal; lia.
  - destruct (IH (S (S (S (S (S (S (10 * acc)))))))) as (_ & _ & <-);
      f_equal; lia.
  - destruct (IH (S (S (S (S (S (S (S (10 * acc))))))))) as (_ & _ & <-);
      f_equal; lia.
  - destruct (IH (S (S (S (S (S (S (S (S (10 * acc)))))))))) as (_ & _ & <-);
      f_equal; lia.
  - destruct (IH (S (S (S (S (S (S (S (S (S (10 * acc)))))))))))
      as (_ & _ & <-); f_equal; lia.
Qed.

Lemma ofNumber_nonempty (n : nat) : JS.ofNumber n <> [].
Proof.
  unfold JS.ofNumber; intros H.
  apply (JSFacts.utf16_inj _ EmptyString) in H.
  apply (f_equal NilEmpty.uint_of_string) in H.
  rewrite NilEmpty.usu in H; simpl in H; injection H as H.
  pose proof (Unsigned.to_of (Nat.to_uint n)) as E.
  rewrite Unsigned.of_to, H in E.
  exact (DecimalFacts.unorm_nonnil _ (eq_sym E)).
Qed.

Lemma Number_ofNumber (n : nat) :
  (N.of_nat n < 9007199254740992)%N ->
  JS.Number (Some (JS.ofNumber n)) = JS.Int (N.of_nat n).
Proof.
  intros Hn; pose proof (ofNumber_nonempty n) as Hne.
  destruct (digits_of_uint (Nat.to_uint n) 0) as (Hd & _ & Hv).
  change (N.of_nat 0) with 0%N in Hv.
  change (Nat.of_uint_acc (Nat.to_uint n) 0)
    with (Nat.of_uint (Nat.to_uint n)) in Hv.
  rewrite Unsigned.of_to in Hv.
  fold (JS.ofNumber n) in Hd, Hv.
  unfold JS.Number; destruct (JS.ofNumber n) as [|c s] eqn:E;
    [contradiction|].
  rewrite Hd, Hv; apply N.ltb_lt in Hn; now rewrite Hn.
Qed.

Lemma split_no_separator (sep : N) (s : JS.str) :
  forallb (fun c => negb (N.eqb c sep)) s = true -> JS.split sep s = [s].
Proof.
  induction s as [|c s IH]; simpl; [reflexivity|].
  intros H; apply andb_true_iff in H as [Hc Hs].
  apply negb_true_iff in Hc; now rewrite Hc, (IH Hs).
Qed.

Lemma number_of_id (k : nat) :
  (N.of_nat k < 9007199254740992)%N ->
  JS.Number (nth_error (JS.split 45 (JS.utf16 "EM-" ++ JS.ofNumber k)) 1)
  = JS.Int (N.of_nat k).
Proof.
  intros Hk.
  destruct (digits_of_uint (Nat.to_uint k) 0) as (_ & Hsep & _).
  fold (JS.ofNumber k) in Hsep.
  change (JS.utf16 "EM-" ++ JS.ofNumber k)
    with (69 :: 77 :: 45 :: JS.ofNumber k)%N.
  simpl JS.split; rewrite (split_no_separator 45 _ Hsep); simpl nth_error.
  now apply Number_ofNumber.
Qed.

Lemma last_of_numbered (its : list Iter) (n : nat) :
  iterationsNumbered its -> List.length its = S n ->
  exists last, nth_error its n = Some last /\ I.id last = iterationIdAt n.
Proof.
  intros Hnum Hlen.
  destruct (nth_error its n) as [last|] eqn:E.
  - exists last; split; [reflexivity|].
    pose proof (map_nth_error I.id _ _ E) as E'.
    rewrite Hnum in E'; now apply Numbering.nth_error_numbered in E'.
  - apply nth_error_None in E; lia.
Qed.

End NumberFacts.

(** X9: The add dialog is given [getLastIterationNumber], the new iteration is
    numbered by [getNextIterationNumber].  In a collection where every
    module and iteration has the id of its position (every collection
    reached without a removal) the two agree, for a module that exists or
    not, as long as the count is below 2^53.  In general the dialog shows
    one more than the number [k] read in the id "EM-k" of the last iteration
    of the module, whereas the id is made from the count of iterations. *)
Theorem dialog_number_and_next_id :
  (forall (ms : list Mod) (a : JS.str),
      numbered ms ->
      (forall m : Mod,
          In m ms ->
          (N.of_nat (List.length (M.iterations m)) < 9007199254740992)%N) ->
      Store.getLastIterationNumber ms a
      = JS.Int (N.of_nat (Store.getNextIterationNumber ms a))) /\
  (forall (pre post : list Mod) (m : Mod) (its : list Iter) (last : Iter)
          (k : nat),
      moduleAbsent (M.id m) pre ->
      M.iterations m = its ++ [last] ->
      I.id last = JS.utf16 "EM-" ++ JS.ofNumber k ->
      (N.of_nat k < 9007199254740992)%N ->
      Store.getLastIterationNumber (pre ++ m :: post) (M.id m)
      = JS.Int (N.of_nat k + 1) /\
      Store.getNextIterationNumber (pre ++ m :: post) (M.id m)
      = List.length its + 2).
Proof.
  split.
  - intros ms a Hnum Hbound.
    unfold Store.getLastIterationNumber, Store.getNextIterationNumber.
    cbv zeta.
    destruct (find (fun m => JS.eqb (M.id m) a) ms) as [m|] eqn:F;
      [|reflexivity].
    apply find_some in F as [Hm _]; unfold option_map.
    rewrite or_zero_Some.
    destruct (List.length (M.iterations m)) as [|n] eqn:Hlen;
      [reflexivity|].
    destruct Hnum as [_ Hits]; rewrite Forall_forall in Hits.
    destruct (NumberFacts.last_of_numbered (M.iterations m) n (Hits m Hm) Hlen)
      as (last & -> & Hid).
    specialize (Hbound m Hm); rewrite Hlen in Hbound.
    rewrite Hid; unfold iterationIdAt.
    rewrite NumberFacts.number_of_id by lia.
    unfold JS.plus1.
    assert (Hlt : (N.of_nat (n + 1) <? 9007199254740992)%N = true)
      by (apply N.ltb_lt; lia).
    rewrite Hlt; f_equal; lia.
  - intros pre post m its last k Hpre Hits Hid Hk; split.
    + unfold Store.getLastIterationNumber; cbv zeta.
      rewrite (find_first_module pre post m Hpre), Hits, last_length.
      rewrite nth_error_app2, Nat.sub_diag by lia.
      change (nth_error [last] 0) with (Some last); cbv iota beta.
      rewrite Hid, (NumberFacts.number_of_id k Hk); unfold JS.plus1.
      apply N.ltb_lt in Hk; now rewrite Hk.
    + rewrite (getNextIterationNumber_count pre post m Hpre), Hits.
      rewrite last_length; lia.
Qed.

Lemma dialog_number_and_next_id_witness :
  Store.getLastIterationNumber
    [ M.mk (JS.utf16 "em-1") (JS.utf16 "Experiment Module") false true
        [ I.mk (JS.utf16 "EM-2") (JS.utf16 "Second") false completed ] ]
    (JS.utf16 "em-1") = JS.Int 3 /\
  Store.getNextIterationNumber
    [ M.mk (JS.utf16 "em-1") (JS.utf16 "Experiment Module") false true
        [ I.mk (JS.utf16 "EM-2") (JS.utf16 "Second") false completed ] ]
    (JS.utf16 "em-1") = 2.
Proof.
  refine
    (proj2 dialog_number_and_next_id [] []
       (M.mk (JS.utf16 "em-1") (JS.utf16 "Experiment Module") false true
          [ I.mk (JS.utf16 "EM-2") (JS.utf16 "Second") false completed ])
       [] (I.mk (JS.utf16 "EM-2") (JS.utf16 "Second") false completed) 2
       _ eq_refl eq_refl eq_refl).
  intros x [].
Defined.

(** * Further properties of the page component *)

(** ** Opening the length dialog and removing *)

Lemma existsb_holdsIteration (i : JS.str) (m : Mod) :
  existsb (fun iter => JS.eqb (I.id iter) i) (M.iterations m) = true
  <-> holdsIteration i m.
Proof.
  rewrite existsb_exists; unfold holdsIteration.
  split; intros (it & Hin & H); exists it; split; auto;
    now apply JSFacts.eqb_eq.
Qed.

Lemma found_after_no_holder (i found : JS.str) (post : list Mod) :
  (forall x, In x post -> ~ holdsIteration i x) ->
  fold_left
    (fun found module =>
       if existsb (fun iter => JS.eqb (I.id iter) i) (M.iterations module)
       then M.id module else found) post found
  = found.
Proof.
  revert found; induction post as [|x post IH]; simpl; intros found H;
    [reflexivity|].
  destruct (existsb _ (M.iterations x)) eqn:E.
  - apply existsb_holdsIteration in E; exfalso; apply (H x); auto.
  - apply IH; auto.
Qed.

(** X10: [handleIterationClick] opens the length dialog on the iteration id
    it is given and on the last module of the collection that has an iteration
    with that id, whichever module the click came from (on the empty id
    when no module has one), and leaves the collection alone.  REMOVE in
    the dialog then removes the iteration from that last module: when the
    module is the only one with its id, the modules before it keep their
    iterations, also those with the id clicked. *)
Theorem iterationClick_selects_last_holder :
  forall (st : App.State) (i : JS.str),
    App.modules (App.handleIterationClick i st) = App.modules st /\
    App.currentIterationId (App.handleIterationClick i st) = i /\
    App.showLengthModal (App.handleIterationClick i st) = true /\
    ((forall x, In x (App.modules st) -> ~ holdsIteration i x) ->
     App.currentModuleId (App.handleIterationClick i st) = []) /\
    (forall (pre post : list Mod) (m : Mod),
        App.modules st = pre ++ m :: post ->
        holdsIteration i m ->
        (forall x, In x post -> ~ holdsIteration i x) ->
        App.currentModuleId (App.handleIterationClick i st) = M.id m /\
        (moduleAbsent (M.id m) pre ->
         moduleAbsent (M.id m) post ->
         App.modules
           (App.handleRemoveIteration (App.handleIterationClick i st))
         = pre ++
           M.mk (M.id m) (M.title m) (M.isLocked m) (M.isExpanded m)
             (filter (fun it => negb (JS.eqb (I.id it) i)) (M.iterations m))
           :: post)).
Proof.
  intros st i; split; [reflexivity|]; split; [reflexivity|].
  split; [reflexivity|]; split.
  - intros Hnone; simpl; now apply found_after_no_holder.
  - intros pre post m Hms Hm Hpost.
    assert (Hfound :
              App.currentModuleId (App.handleIterationClick i st) = M.id m).
    { simpl; rewrite Hms, fold_left_app; simpl.
      apply existsb_holdsIteration in Hm; rewrite Hm.
      now apply found_after_no_holder. }
    split; [exact Hfound|].
    intros Hapre Hapost.
    assert (Hremove : forall s,
               App.modules (App.handleRemoveIteration s)
               = Store.handleRemoveIteration (App.currentModuleId s)
                   (App.currentIterationId s) (App.modules s))
      by reflexivity.
    rewrite Hremove, Hfound.
    change (App.currentIterationId (App.handleIterationClick i st)) with i.
    change (App.modules (App.handleIterationClick i st))
      with (App.modules st).
    rewrite Hms; unfold Store.handleRemoveIteration.
    now rewrite (update_only_module _ pre post m Hapre Hapost).
Qed.

Lemma iterationClick_selects_last_holder_witness :
  App.modules
    (App.handleRemoveIteration
       (App.handleIterationClick (JS.utf16 "EM-1")
          (App.setModules
             (fun _ =>
                [ M.mk (JS.utf16 "em-1") (JS.utf16 "Experiment Module")
                    false true
                    [ I.mk (JS.utf16 "EM-1") (JS.utf16 "First")
                        false completed ];
                  M.mk (JS.utf16 "em-2") (JS.utf16 "Experiment Module")
                    false true
                    [ I.mk (JS.utf16 "EM-1") (JS.utf16 "Other")
                        false completed ] ])
             App.initial)))
  = [ M.mk (JS.utf16 "em-1") (JS.utf16 "Experiment Module") false true
        [ I.mk (JS.utf16 "EM-1") (JS.utf16 "First") false completed ] ] ++
    M.mk (JS.utf16 "em-2") (JS.utf16 "Experiment Module") false true
      (filter (fun it => negb (JS.eqb (I.id it) (JS.utf16 "EM-1")))
         [ I.mk (JS.utf16 "EM-1") (JS.utf16 "Other") false completed ])
    :: [].
Proof.
  refine
    (proj2
       (proj2 (proj2 (proj2 (proj2
          (iterationClick_selects_last_holder
             (App.setModules
                (fun _ =>
                   [ M.mk (JS.utf16 "em-1") (JS.utf16 "Experiment Module")
                       false true
                       [ I.mk (JS.utf16 "EM-1") (JS.utf16 "First")
                           false completed ];
                     M.mk (JS.utf16 "em-2") (JS.utf16 "Experiment Module")
                       false true
                       [ I.mk (JS.utf16 "EM-1") (JS.utf16 "Other")
                           false completed ] ])
                App.initial)
             (JS.utf16 "EM-1")))))
          [ M.mk (JS.utf16 "em-1") (JS.utf16 "Experiment Module") false true
              [ I.mk (JS.utf16 "EM-1") (JS.utf16 "First") false completed ] ]
          []
          (M.mk (JS.utf16 "em-2") (JS.utf16 "Experiment Module") false true
             [ I.mk (JS.utf16 "EM-1") (JS.utf16 "Other") false completed ])
          eq_refl _ _) _ _).
  - eexists; split; [left; reflexivity|reflexivity].
  - intros x [].
  - intros x [<-|[]]; discriminate.
  - intros x [].
Defined.

(** ** The scheduled completion *)

Lemma scheduled_grows (e : App.Event) (st : App.State) :
  e <> App.TimeoutElapsed ->
  exists more, App.scheduled (App.step e st) = App.scheduled st ++ more.
Proof.
  intros He; destruct e; try contradiction;
    try (exists []; simpl; now rewrite app_nil_r).
  eexists; reflexivity.
Qed.

Lemma first_scheduled_stays (cb : App.Timeout) (es : list App.Event) :
  ~ In App.TimeoutElapsed es ->
  forall (st : App.State) (rest : list App.Timeout),
    App.scheduled st = cb :: rest ->
    exists rest', App.scheduled (App.steps es st) = cb :: rest'.
Proof.
  induction es as [|e es IH]; simpl; intros Hes st rest Hst;
    [now exists rest|].
  destruct (scheduled_grows e st) as (more & Hmore).
  { intros ->; apply Hes; now left. }
  apply (IH (fun H => Hes (or_intror H)) (App.step e st) (rest ++ more)).
  now rewrite Hmore, Hst.
Qed.

(** X11: The completion scheduled by [handleAddIterationComplete] when nothing
    else is pending is applied, when the timeout elapses, to the module that
    was current at the confirmation, to the id computed then and with the
    title given then, whatever events other than a timeout happened in
    between, a change of the current module or another confirmation among
    them. *)
Theorem completion_targets_captured_ids :
  forall (st : App.State) (prompt : option JS.str) (es : list App.Event),
    App.scheduled st = [] ->
    ~ In App.TimeoutElapsed es ->
    App.modules
      (App.timeout (App.steps es (App.handleAddIterationComplete prompt st)))
    = Store.addIterationCompleted (App.currentModuleId st)
        (Store.newIterationId (App.modules st) (App.currentModuleId st))
        prompt
        (App.modules
           (App.steps es (App.handleAddIterationComplete prompt st))).
Proof.
  intros st prompt es Hempty Hes.
  destruct (first_scheduled_stays
              (App.mkTimeout (App.currentModuleId st)
                 (Store.newIterationId (App.modules st)
                    (App.currentModuleId st)) prompt)
              es Hes (App.handleAddIterationComplete prompt st) [])
    as (rest' & Hq).
  { simpl; now rewrite Hempty. }
  unfold App.timeout; rewrite Hq; reflexivity.
Qed.

Lemma completion_targets_captured_ids_witness :
  App.modules
    (App.timeout
       (App.steps
          [ App.AddNewModule; App.AddIteration (JS.utf16 "em-2");
            App.AddIterationComplete None ]
          (App.handleAddIterationComplete (Some (JS.utf16 "My Title"))
             (App.handleAddIteration (JS.utf16 "em-1") App.initial))))
  = Store.addIterationCompleted (JS.utf16 "em-1")
      (Store.newIterationId Store.initialModules (JS.utf16 "em-1"))
      (Some (JS.utf16 "My Title"))
      (App.modules
         (App.steps
            [ App.AddNewModule; App.AddIteration (JS.utf16 "em-2");
              App.AddIterationComplete None ]
            (App.handleAddIterationComplete (Some (JS.utf16 "My Title"))
               (App.handleAddIteration (JS.utf16 "em-1") App.initial)))).
Proof.
  apply (completion_targets_captured_ids
           (App.handleAddIteration (JS.utf16 "em-1") App.initial)
           (Some (JS.utf16 "My Title"))
           [ App.AddNewModule; App.AddIteration (JS.utf16 "em-2");
             App.AddIterationComplete None ]
           eq_refl).
  intros [H|[H|[H|[]]]]; discriminate H.
Defined.

(** ** The title passed by the add dialog *)

Module TrimFacts.

Lemma trimStart_prefix (s : JS.str) :
  exists pre, s = pre ++ JS.trimStart s /\ forallb JS.isWhiteSpace pre = true.
Proof.
  induction s as [|c s (pre & Hs & Hpre)]; simpl; [now exists []|].
  destruct (JS.isWhiteSpace c) eqn:E; [|now exists []].
  exists (c :: pre); simpl; rewrite E, Hpre; split; [now f_equal|reflexivity].
Qed.

Lemma trimStart_head (s : JS.str) (c : N) (r : JS.str) :
  JS.trimStart s = c :: r -> JS.isWhiteSpace c = false.
Proof.
  induction s as [|x s IH]; simpl; [discriminate|].
  destruct (JS.isWhiteSpace x) eqn:E; [exact IH|].
  intros H; injection H as <- _; exact E.
Qed.

Lemma trimStart_app (l : JS.str) (c : N) (r : JS.str) :
  JS.isWhiteSpace c = false ->
  JS.trimStart (l ++ c :: r) = JS.trimStart l ++ c :: r.
Proof.
  intros Hc; induction l as [|x l IH]; simpl; [now rewrite Hc|].
  destruct (JS.isWhiteSpace x); [exact IH|reflexivity].
Qed.

Lemma trimEnd_cons (c : N) (r : JS.str) :
  JS.isWhiteSpace c = false -> JS.trimEnd (c :: r) = c :: JS.trimEnd r.
Proof.
  intros Hc; unfold JS.trimEnd; simpl rev.
  rewrite (trimStart_app (rev r) c [] Hc), rev_app_distr; reflexivity.
Qed.

Lemma trimEnd_suffix (s : JS.str) :
  exists post, s = JS.trimEnd s ++ post /\
               forallb JS.isWhiteSpace post = true.
Proof.
  unfold JS.trimEnd; destruct (trimStart_prefix (rev s)) as (pre & Hs & Hpre).
  exists (rev pre); split.
  - rewrite <- rev_app_distr, <- Hs; symmetry; apply rev_involutive.
  - rewrite forallb_forall in *; intros x Hx; apply Hpre.
    now apply in_rev.
Qed.

Lemma trimEnd_last (s : JS.str) (c : N) (r : JS.str) :
  rev (JS.trimEnd s) = c :: r -> JS.isWhiteSpace c = false.
Proof.
  unfold JS.trimEnd; rewrite rev_involutive; apply trimStart_head.
Qed.

Lemma trimStart_fixed (c : N) (r : JS.str) :
  JS.isWhiteSpace c = false -> JS.trimStart (c :: r) = c :: r.
Proof. intros Hc; simpl; now rewrite Hc. Qed.

End TrimFacts.

(** X12: [handleSubmit] passes no title while the prompt input is hidden,
    whatever the text.  When it passes a title, the text typed is that
    title between white space: the title is not empty and neither its
    first nor its last code unit is white space.  With the input shown,
    no title is passed exactly when the text is white space only, and a
    text that neither starts nor ends with white space is passed as it
    is. *)
Theorem handleSubmit_passes_trimmed_text :
  forall (showPromptInput : bool) (prompt : JS.str),
    (showPromptInput = false -> handleSubmit showPromptInput prompt = None) /\
    (forall t : JS.str,
        handleSubmit showPromptInput prompt = Some t ->
        showPromptInput = true /\
        (exists pre post : JS.str,
            prompt = pre ++ t ++ post /\
            forallb JS.isWhiteSpace pre = true /\
            forallb JS.isWhiteSpace post = true) /\
        (exists (c : N) (r : JS.str),
            t = c :: r /\ JS.isWhiteSpace c = false) /\
        (exists (c : N) (r : JS.str),
            rev t = c :: r /\ JS.isWhiteSpace c = false)) /\
    (handleSubmit true prompt = None <->
     forallb JS.isWhiteSpace prompt = true) /\
    (forall (c d : N) (r r' : JS.str),
        prompt = c :: r -> rev prompt = d :: r' ->
        JS.isWhiteSpace c = false -> JS.isWhiteSpace d = false ->
        handleSubmit true prompt = Some prompt).
Proof.
  intros showPromptInput prompt.
  assert (Hsome : forall t, JS.or_undefined (JS.trim prompt) = Some t ->
                            t = JS.trim prompt /\ t <> []).
  { intros t; destruct (JS.trim prompt); simpl; [discriminate|].
    intros H; injection H as <-; split; [reflexivity|discriminate]. }
  split; [intros ->; reflexivity|]; split; [|split].
  - intros t Ht; unfold handleSubmit in Ht.
    destruct showPromptInput; [|discriminate].
    destruct (Hsome t Ht) as [-> Hne]; split; [reflexivity|].
    destruct (TrimFacts.trimStart_prefix prompt) as (pre & Hpre & Hwpre).
    destruct (TrimFacts.trimEnd_suffix (JS.trimStart prompt))
      as (post & Hpost & Hwpost).
    fold (JS.trim prompt) in Hpost.
    split; [exists pre, post; split; [|auto]; now rewrite <- Hpost|].
    split.
    + destruct (JS.trim prompt) as [|c r] eqn:E; [contradiction|].
      exists c, r; split; [reflexivity|].
      unfold JS.trim in E.
      destruct (JS.trimStart prompt) as [|x s] eqn:Es.
      * discriminate E.
      * pose proof (TrimFacts.trimStart_head prompt x s Es) as Hx.
        rewrite (TrimFacts.trimEnd_cons x s Hx) in E.
        injection E as <- _; exact Hx.
    + destruct (rev (JS.trim prompt)) as [|c r] eqn:E.
      * apply (f_equal (@rev N)) in E; rewrite rev_involutive in E.
        contradiction.
      * exists c, r; split; [reflexivity|].
        exact (TrimFacts.trimEnd_last (JS.trimStart prompt) c r E).
  - unfold handleSubmit; split.
    + intros H; destruct (JS.trim prompt) as [|c r] eqn:E; [|discriminate].
      destruct (TrimFacts.trimStart_prefix prompt) as (pre & Hpre & Hwpre).
      destruct (TrimFacts.trimEnd_suffix (JS.trimStart prompt))
        as (post & Hpost & Hwpost).
      fold (JS.trim prompt) in Hpost; rewrite E in Hpost; simpl in Hpost.
      rewrite Hpre, Hpost, forallb_app, Hwpre, Hwpost; reflexivity.
    + intros H; now rewrite (JSFacts.trim_whitespace prompt H).
  - intros c d r r' Hp Hrev Hc Hd; unfold handleSubmit, JS.trim.
    rewrite Hp, (TrimFacts.trimStart_fixed c r Hc), <- Hp.
    unfold JS.trimEnd; rewrite Hrev, (TrimFacts.trimStart_fixed d r' Hd).
    rewrite <- Hrev, rev_involutive, Hp; reflexivity.
Qed.

Lemma handleSubmit_passes_trimmed_text_witness :
  handleSubmit false (JS.utf16 "typed") = None /\
  handleSubmit true (JS.utf16 "My Title") = Some (JS.utf16 "My Title").
Proof.
  destruct (handleSubmit_passes_trimmed_text false (JS.utf16 "typed"))
    as (Hhidden & _).
  destruct (handleSubmit_passes_trimmed_text true (JS.utf16 "My Title"))
    as (_ & _ & _ & Hkept).
  split; [exact (Hhidden eq_refl)|].
  apply (Hkept 77%N 101%N (JS.utf16 "y Title") (JS.utf16 "ltiT yM"));
    reflexivity.
Defined.

(** * Properties of the page as the user drives it *)

Module PageFacts.

Ltac unfold_components :=
  unfold ExperimentModule.act, ModuleHeader.handleHeaderClick,
    ModuleHeader.lockButton, ModuleFooter.lockAction,
    ModuleFooter.resetAction, ModuleFooter.addAction, ModuleFooter.button,
    IterationItem.selectionButton, IterationItem.handleSelectionToggle,
    IterationItem.handleIterationClick, AddIterationModal.done,
    AddIterationModal.close, LengthSelectionModal.done,
    LengthSelectionModal.remove, LengthSelectionModal.close,
    LengthSelectionModal.handleConfirm, LengthSelectionModal.handleRemove.

Lemma statusEqb_completed (s : Status) :
  statusEqb s completed = true -> s = completed.
Proof. destruct s; simpl; congruence. Qed.

(** An action does nothing or runs one handler of the page, under the
    guard of the component it went through; only REMOVE of the length
    dialog runs [handleRemoveIteration]. *)
Lemma perform_step (a : Page.Action) (st : App.State) :
  Page.perform a st = st \/
  exists e : App.Event,
    Page.perform a st = App.step e st /\ guardOf st e /\
    (App.isRemoval e = true -> Page.isRemove a = true).
Proof.
  destruct a as [|k c| | | | | |]; simpl; unfold_components.
  - right; exists App.AddNewModule; simpl; auto.
  - destruct (nth_error (App.modules st) k) as [m|] eqn:Hk; [|now left].
    pose proof (nth_error_In _ _ Hk) as Hm.
    destruct c as [| | | | |j|j]; unfold_components; cbv zeta; simpl.
    + destruct (M.isLocked m) eqn:Hl; simpl; [now left|].
      right; exists (App.ToggleExpand (M.id m)); simpl.
      split; [reflexivity|]; split; [|discriminate].
      exists m; auto.
    + destruct (List.length (M.iterations m) =? 0); simpl; [now left|].
      right; exists (App.ToggleLock (M.id m)); simpl; auto.
    + destruct (M.isExpanded m && negb (M.isLocked m)); [|now left].
      destruct (_ || _); [now left|].
      right; exists (App.LockModule (M.id m)); simpl; auto.
    + destruct (M.isExpanded m && negb (M.isLocked m)); [|now left].
      destruct (_ || _); [now left|].
      right; exists (App.ResetModule (M.id m)); simpl; auto.
    + destruct (M.isExpanded m && negb (M.isLocked m)); [|now left].
      destruct (_ || _); [now left|].
      right; exists (App.AddIteration (M.id m)); simpl; auto.
    + destruct (nth_error (M.iterations m) j) as [it|] eqn:Hj; [|now left].
      destruct (M.isExpanded m && negb (M.isLocked m)); [|now left].
      destruct (statusEqb (I.status it) completed) eqn:Hs; simpl;
        [|now left].
      destruct (M.isLocked m) eqn:Hl; simpl; [now left|].
      right; exists (App.ToggleSelection (M.id m) (I.id it)); simpl.
      split; [reflexivity|]; split; [|discriminate].
      exists m, it; repeat split; auto.
      * exact (nth_error_In _ _ Hj).
      * now apply statusEqb_completed.
    + destruct (nth_error (M.iterations m) j) as [it|] eqn:Hj; [|now left].
      destruct (M.isExpanded m && negb (M.isLocked m)); [|now left].
      destruct (negb (M.isLocked m) && _); [|now left].
      right; exists (App.IterationClick (I.id it)); simpl; auto.
  - destruct (App.showAddModal st); simpl; [|now left].
    destruct (App.isProcessing st) eqn:Hp; simpl; [now left|].
    right; eexists (App.AddIterationComplete _); simpl.
    split; [reflexivity|]; split; [exact Hp|discriminate].
  - destruct (App.showAddModal st); [|now left].
    right; exists App.CloseAddModal; simpl; auto.
  - destruct (App.showLengthModal st); [|now left].
    destruct (negb (App.isProcessing st)); [|now left].
    right; eexists (App.LengthConfirm _); simpl; auto.
  - destruct (App.showLengthModal st); [|now left].
    destruct (negb (App.isProcessing st)); [|now left].
    right; exists App.RemoveIteration; simpl; auto.
  - destruct (App.showLengthModal st && negb (App.isProcessing st));
      [|now left].
    right; exists App.CloseLengthModal; simpl; auto.
  - right; exists App.TimeoutElapsed; simpl; auto.
Qed.

(** A property of the state kept by every guarded event is kept by every
    sequence of actions. *)
Lemma performs_invariant (Inv : App.State -> Prop)
  (allowed : Page.Action -> bool) :
  (forall (a : Page.Action) (e : App.Event) (st : App.State),
      allowed a = true ->
      (App.isRemoval e = true -> Page.isRemove a = true) ->
      guardOf st e -> Inv st -> Inv (App.step e st)) ->
  forall (actions : list Page.Action) (st : App.State),
    forallb allowed actions = true ->
    Inv st -> Inv (Page.performs actions st).
Proof.
  intros Hstep actions; induction actions as [|a actions IH]; simpl;
    intros st Hall Hst; [exact Hst|].
  apply andb_true_iff in Hall as [Ha Hrest].
  apply IH; [exact Hrest|].
  destruct (perform_step a st) as [->|(e & -> & Hg & Hr)]; [exact Hst|].
  exact (Hstep a e st Ha Hr Hg Hst).
Qed.

Lemma forallb_true (A : Type) (l : list A) : forallb (fun _ => true) l = true.
Proof. induction l; simpl; auto. Qed.

Lemma sequential_ids_unique (ms : list Mod) (m m' : Mod) :
  map M.id ms = map moduleIdAt (seq 0 (List.length ms)) ->
  In m ms -> In m' ms -> M.id m = M.id m' -> m = m'.
Proof.
  intros Hids Hm Hm' E.
  apply In_nth_error in Hm as [i Hi]; apply In_nth_error in Hm' as [k Hk].
  pose proof (map_nth_error M.id _ _ Hi) as Hi'.
  pose proof (map_nth_error M.id _ _ Hk) as Hk'.
  rewrite Hids in Hi', Hk'.
  apply Numbering.nth_error_numbered in Hi', Hk'.
  assert (i = k) by (apply Numbering.moduleIdAt_inj; congruence).
  subst k; congruence.
Qed.

Lemma NoDup_map_unique (A B : Type) (f : A -> B) (l : list A) (x y : A) :
  NoDup (map f l) -> In x l -> In y l -> f x = f y -> x = y.
Proof.
  induction l as [|z l IH]; simpl; intros Hnd Hx Hy E; [contradiction|].
  inversion Hnd as [|? ? Hz Hl]; subst.
  destruct Hx as [->|Hx], Hy as [->|Hy]; auto.
  - exfalso; apply Hz; rewrite E; now apply in_map.
  - exfalso; apply Hz; rewrite <- E; now apply in_map.
Qed.

Lemma lockedCollapsed_apply (o : Op.t) (ms : list Mod) :
  (forall a, o = Op.toggleExpand a ->
             forall m, In m ms -> M.id m = a -> M.isLocked m = false) ->
  lockedCollapsed ms -> lockedCollapsed (Op.apply o ms).
Proof.
  intros Hexp Hlc; destruct o; simpl; unfold_store; intros m' Hm'.
  - apply in_app_or in Hm' as [Hm'|[<-|[]]]; [now apply Hlc|].
    simpl; discriminate.
  - apply in_map_iff in Hm' as (m & <- & Hm).
    destruct (JS.eqb (M.id m) moduleId) eqn:E; [|now apply Hlc].
    apply JSFacts.eqb_eq in E; simpl.
    rewrite (Hexp moduleId eq_refl m Hm E); discriminate.
  - apply in_map_iff in Hm' as (m & <- & Hm).
    destruct (JS.eqb (M.id m) moduleId); [|now apply Hlc].
    simpl; destruct (M.isLocked m); [discriminate|reflexivity].
  - apply in_map_iff in Hm' as (m & <- & Hm).
    destruct (JS.eqb (M.id m) moduleId); [|now apply Hlc].
    reflexivity.
  - apply in_map_iff in Hm' as (m & <- & Hm).
    destruct (JS.eqb (M.id m) moduleId); simpl; now apply Hlc.
  - apply in_map_iff in Hm' as (m & <- & Hm).
    destruct (JS.eqb (M.id m) moduleId); simpl; now apply Hlc.
  - apply in_map_iff in Hm' as (m & <- & Hm).
    destruct (JS.eqb (M.id m) moduleId); simpl; now apply Hlc.
  - apply in_map_iff in Hm' as (m & <- & Hm).
    destruct (JS.eqb (M.id m) moduleId); simpl; now apply Hlc.
  - apply in_map_iff in Hm' as (m & <- & Hm).
    destruct (JS.eqb (M.id m) moduleId); simpl; now apply Hlc.
Qed.

Lemma selectedCompleted_apply (o : Op.t) (ms : list Mod) :
  (forall a i, o = Op.toggleSelection a i ->
               forall m it, In m ms -> M.id m = a ->
                            In it (M.iterations m) -> I.id it = i ->
                            I.status it = completed) ->
  allIterations selectedCompleted ms ->
  allIterations selectedCompleted (Op.apply o ms).
Proof.
  intros Hsel Hall; destruct o; simpl; unfold_store.
  - intros m it Hm Hit.
    apply in_app_or in Hm as [Hm|[<-|[]]]; [exact (Hall m it Hm Hit)|].
    destruct Hit.
  - apply allIterations_update; auto.
  - apply allIterations_update; auto.
  - apply allIterations_update; auto.
  - apply allIterations_update; [|exact Hall]; intros m _ Hm it Hit.
    simpl in Hit; apply in_map_iff in Hit as (x & <- & Hx).
    intros H; discriminate H.
  - intros m' it' Hm' Hit'.
    apply in_map_iff in Hm' as (m & <- & Hm).
    destruct (JS.eqb (M.id m) moduleId) eqn:E; [|exact (Hall m it' Hm Hit')].
    apply JSFacts.eqb_eq in E; simpl in Hit'.
    apply in_map_iff in Hit' as (x & <- & Hx).
    destruct (JS.eqb (I.id x) iterationId) eqn:F; [|exact (Hall m x Hm Hx)].
    apply JSFacts.eqb_eq in F; intros _; simpl.
    exact (Hsel moduleId iterationId eq_refl m x Hm E Hx F).
  - apply allIterations_update; [|exact Hall]; intros m _ Hm it Hit.
    simpl in Hit; apply in_app_or in Hit as [Hit|[<-|[]]]; auto.
    intros H; discriminate H.
  - apply allIterations_update; [|exact Hall]; intros m _ Hm it Hit.
    simpl in Hit; apply in_map_iff in Hit as (x & <- & Hx).
    destruct (JS.eqb (I.id x) iterationId); auto.
    intros _; reflexivity.
  - apply allIterations_update; [|exact Hall]; intros m _ Hm it Hit.
    simpl in Hit; apply filter_In in Hit as [Hit _]; auto.
Qed.

Lemma onePending_step (e : App.Event) (st : App.State) :
  guardOf st e -> onePending st -> onePending (App.step e st).
Proof.
  intros Hg Hst; destruct e; simpl; try exact Hst.
  - destruct Hst as [[Hq Hp]|(cb & Hq & Hp)].
    + right; eexists; simpl; rewrite Hq; split; reflexivity.
    + simpl in Hg; congruence.
  - unfold App.timeout; destruct Hst as [[Hq Hp]|(cb & Hq & Hp)]; rewrite Hq.
    + left; auto.
    + left; split; reflexivity.
Qed.

End PageFacts.

Lemma opOf_toggleExpand (e : App.Event) (st : App.State) (a : JS.str) :
  App.opOf e st = Some (Op.toggleExpand a) -> e = App.ToggleExpand a.
Proof.
  destruct e; simpl; try discriminate;
    try (intros H; injection H as <-; reflexivity).
  destruct (App.scheduled st); discriminate.
Qed.

Lemma opOf_toggleSelection (e : App.Event) (st : App.State) (a i : JS.str) :
  App.opOf e st = Some (Op.toggleSelection a i) ->
  e = App.ToggleSelection a i.
Proof.
  destruct e; simpl; try discriminate;
    try (intros H; injection H as <- <-; reflexivity).
  destruct (App.scheduled st); discriminate.
Qed.

(** X13: Whatever the user does, a locked module is collapsed: the header does
    not expand a locked module and locking collapses, so the panel that
    [ExperimentModule] renders for a module both locked and expanded is
    never shown.  The guard is the header's: the store operations alone
    reach a module that is locked and expanded. *)
Theorem locked_module_is_collapsed :
  (forall (actions : list Page.Action) (m : Mod),
      In m (App.modules (Page.performs actions App.initial)) ->
      M.isLocked m = true -> M.isExpanded m = false) /\
  (exists m : Mod,
      In m
        (Op.run
           [ Op.toggleLock (JS.utf16 "em-1");
             Op.toggleExpand (JS.utf16 "em-1") ]
           Store.initialModules) /\
      M.isLocked m = true /\ M.isExpanded m = true).
Proof.
  split.
  - intros actions.
    apply (PageFacts.performs_invariant
             (fun st =>
                map M.id (App.modules st)
                = map moduleIdAt (seq 0 (List.length (App.modules st))) /\
                lockedCollapsed (App.modules st))
             (fun _ => true)).
    + intros a e st _ _ Hg [Hids Hlc]; rewrite AppFacts.step_modules.
      destruct (App.opOf e st) as [o|] eqn:Ho; [|split; assumption].
      split; [now apply module_ids_apply|].
      apply PageFacts.lockedCollapsed_apply; [|exact Hlc].
      intros b -> m Hm Hb.
      apply opOf_toggleExpand in Ho; subst e.
      destruct Hg as (m0 & Hm0 & Hid0 & Hl0).
      rewrite (PageFacts.sequential_ids_unique (App.modules st) m m0 Hids
                 Hm Hm0); [exact Hl0|congruence].
    + apply PageFacts.forallb_true.
    + split; [reflexivity|].
      intros m [<-|[]]; reflexivity.
  - eexists; split; [vm_compute; left; reflexivity|].
    split; reflexivity.
Qed.

Lemma locked_module_is_collapsed_witness :
  M.isExpanded
    (M.mk (JS.utf16 "em-1") (JS.utf16 "Experiment Module") true false
       [ I.mk (JS.utf16 "EM-1") (JS.utf16 "Iteration title")
           false completed ])
  = false.
Proof.
  apply (proj1 locked_module_is_collapsed
           [ Page.onModule 0 ExperimentModule.header;
             Page.onModule 0 ExperimentModule.footerAdd;
             Page.addDialogDone false [];
             Page.timeoutElapses;
             Page.onModule 0 ExperimentModule.lockButton;
             Page.onModule 0 ExperimentModule.header ]).
  - vm_compute; left; reflexivity.
  - reflexivity.
Defined.

(** X14: As long as the user removes nothing, an iteration that is selected is
    completed: the selection button toggles completed iterations only and
    ids are unique.  With a removal this fails: after [removeThenSelect] an
    iteration that is still being added is selected, because the click on
    the completed iteration "EM-2" toggles every iteration with that id. *)
Theorem selected_iteration_is_completed :
  (forall actions : list Page.Action,
      forallb (fun a => negb (Page.isRemove a)) actions = true ->
      forall (m : Mod) (it : Iter),
        In m (App.modules (Page.performs actions App.initial)) ->
        In it (M.iterations m) ->
        I.isSelected it = true -> I.status it = completed) /\
  (exists (m : Mod) (it : Iter),
      In m (App.modules (Page.performs removeThenSelect App.initial)) /\
      In it (M.iterations m) /\
      I.isSelected it = true /\ I.status it = adding).
Proof.
  split.
  - intros actions Hact.
    assert (Hinv : numbered
                     (App.modules (Page.performs actions App.initial)) /\
                   allIterations selectedCompleted
                     (App.modules (Page.performs actions App.initial))).
    { apply (PageFacts.performs_invariant
               (fun st => numbered (App.modules st) /\
                          allIterations selectedCompleted (App.modules st))
               (fun a => negb (Page.isRemove a))); [|exact Hact|].
      - intros a e st Ha Hr Hg [Hnum Hsel]; rewrite AppFacts.step_modules.
        destruct (App.opOf e st) as [o|] eqn:Ho; [|split; assumption].
        assert (He : App.isRemoval e = false).
        { destruct (App.isRemoval e); [|reflexivity].
          rewrite (Hr eq_refl) in Ha; discriminate Ha. }
        split.
        + apply Numbering.numbered_apply; [|exact Hnum].
          exact (AppFacts.opOf_isRemoval e st o He Ho).
        + apply PageFacts.selectedCompleted_apply; [|exact Hsel].
          intros b i -> m it Hm Hb Hit Hi.
          apply opOf_toggleSelection in Ho; subst e.
          destruct Hg as (m0 & it0 & Hm0 & Hit0 & Hid0 & Hiid0 & Hst0 & _).
          assert (m = m0)
            by (apply (Numbering.numbered_unique (App.modules st));
                auto; congruence).
          subst m0.
          assert (it = it0); [|congruence].
          apply (PageFacts.NoDup_map_unique _ _ I.id (M.iterations m));
            auto; [|congruence].
          apply Numbering.iterationsNumbered_NoDup.
          destruct Hnum as [_ Hits]; rewrite Forall_forall in Hits; auto.
      - split; [exact Numbering.numbered_initial|].
        intros m it [<-|[]] []. }
    intros m it Hm Hit; exact (proj2 Hinv m it Hm Hit).
  - exists (M.mk (JS.utf16 "em-1") (JS.utf16 "Experiment Module") false true
              [ I.mk (JS.utf16 "EM-2") (JS.utf16 "Iteration title")
                  true completed;
                I.mk (JS.utf16 "EM-2") (JS.utf16 "Adding iteration...")
                  true adding ]),
      (I.mk (JS.utf16 "EM-2") (JS.utf16 "Adding iteration...") true adding).
    split; [vm_compute; left; reflexivity|].
    split; [right; left; reflexivity|split; reflexivity].
Qed.

Lemma selected_iteration_is_completed_witness :
  I.status (I.mk (JS.utf16 "EM-1") (JS.utf16 "My Title") true completed)
  = completed.
Proof.
  apply (proj1 selected_iteration_is_completed
           [ Page.onModule 0 ExperimentModule.header;
             Page.onModule 0 ExperimentModule.footerAdd;
             Page.addDialogDone true (JS.utf16 " My Title ");
             Page.timeoutElapses;
             Page.onModule 0 (ExperimentModule.selection 0) ]
           eq_refl
           (M.mk (JS.utf16 "em-1") (JS.utf16 "Experiment Module") false true
              [ I.mk (JS.utf16 "EM-1") (JS.utf16 "My Title")
                  true completed ])).
  - vm_compute; left; reflexivity.
  - left; reflexivity.
  - reflexivity.
Defined.

(** X15: Whatever the user does, at most one completion is scheduled, and
    [isProcessing] is set exactly while one is: the add dialog does not
    confirm while an addition is being processed. *)
Theorem one_completion_pending_at_most :
  (forall actions : list Page.Action,
      onePending (Page.performs actions App.initial)) /\
  (forall (st : App.State) (showPromptInput : bool) (prompt : JS.str),
      App.isProcessing st = true ->
      Page.perform (Page.addDialogDone showPromptInput prompt) st = st).
Proof.
  split.
  - intros actions.
    apply (PageFacts.performs_invariant onePending (fun _ => true)).
    + intros a e st _ _ Hg Hst; now apply PageFacts.onePending_step.
    + apply PageFacts.forallb_true.
    + left; split; reflexivity.
  - intros st showPromptInput prompt Hp; simpl.
    unfold AddIterationModal.done; rewrite Hp.
    now rewrite andb_false_r.
Qed.

Lemma one_completion_pending_at_most_witness :
  Page.perform (Page.addDialogDone false [])
    (Page.performs
       [ Page.onModule 0 ExperimentModule.header;
         Page.onModule 0 ExperimentModule.footerAdd;
         Page.addDialogDone false [] ]
       App.initial)
  = Page.performs
      [ Page.onModule 0 ExperimentModule.header;
        Page.onModule 0 ExperimentModule.footerAdd;
        Page.addDialogDone false [] ]
      App.initial.
Proof.
  apply (proj2 one_completion_pending_at_most).
  vm_compute; reflexivity.
Defined.
